(** * Solana Vault: address derivation and the deposit / withdraw program

    A shallow embedding of the vault of this repository:
    - the client-side address derivation of [utils/anchor.ts]
      ([programID], [getVaultPDA], [getCounterPDA]);
    - the on-chain Anchor program printed in the README
      ([deposit], [withdraw], the [Deposit] and [Withdraw] account
      structs and the [UserInteractions] account).

    What the program consumes from outside the repository is kept apart from
    it: the hash and the curve test of the derivation and the rent table are
    fields of the class [Substrate]; the system program's instructions and
    the checks that Anchor generates from the [#[account(...)]] attributes
    are written out as they act on the ledger. Transaction fees and the
    cluster's rent collection are not part of an instruction and are left
    out. *)

From Stdlib Require Import ZArith Ascii String.
From stdpp Require Import gmap strings list.

Open Scope Z_scope.

(** ** Results of fallible code *)

Inductive Result (E A : Type) : Type :=
  | Ok (a : A)
  | Err (e : E).
Arguments Ok {E A} a.
Arguments Err {E A} e.

Global Instance Result_ret {E} : MRet (Result E) := λ A a, Ok a.
Global Instance Result_bind {E} : MBind (Result E) := λ A B f m,
  match m with
  | Ok a => f a
  | Err e => Err e
  end.

Definition is_ok {E A} (r : Result E A) : bool :=
  match r with Ok _ => true | Err _ => false end.

(** ** Bytes

    A buffer is a list of bytes, a byte a [Z] in [0, 256). *)

Definition bytes_of_string (s : string) : list Z :=
  (λ c, Z.of_N (N_of_ascii c)) <$> list_ascii_of_string s.

(** Little-endian encoding of an unsigned integer on [n] bytes (borsh writes a
    [u64] on 8 of them). *)
Fixpoint to_le_bytes (n : nat) (x : Z) : list Z :=
  match n with
  | O => []
  | S n' => x `mod` 256 :: to_le_bytes n' (x `div` 256)
  end.

Fixpoint from_le_bytes (bs : list Z) : Z :=
  match bs with
  | [] => 0
  | b :: bs' => b + 256 * from_le_bytes bs'
  end.

Definition U64_MAX : Z := 2 ^ 64 - 1.

Definition in_u64 (x : Z) : bool := (0 <=? x) && (x <=? U64_MAX).

(** ** Base58 and public keys

    [new PublicKey("...")] decodes a base58 string and refuses anything that
    is not 32 bytes long. *)

Module Base58.

Definition ALPHABET : string :=
  "123456789ABCDEFGHJKLMNPQRSTUVWXYZabcdefghijkmnopqrstuvwxyz".

Fixpoint digit_from (i : Z) (alphabet : list ascii) (c : ascii) : option Z :=
  match alphabet with
  | [] => None
  | a :: rest => if Ascii.eqb a c then Some i else digit_from (i + 1) rest c
  end.

Definition digit (c : ascii) : option Z :=
  digit_from 0 (list_ascii_of_string ALPHABET) c.

Fixpoint value (acc : Z) (s : list ascii) : option Z :=
  match s with
  | [] => Some acc
  | c :: rest =>
      match digit c with
      | Some d => value (acc * 58 + d) rest
      | None => None
      end
  end.

Fixpoint leading_ones (s : list ascii) : nat :=
  match s with
  | c :: rest => if Ascii.eqb c "1"%char then S (leading_ones rest) else O
  | [] => O
  end.

(** Big-endian bytes of [x], without leading zeros; [fuel] bounds the
    number of bytes. *)
Fixpoint be_bytes (fuel : nat) (x : Z) (acc : list Z) : list Z :=
  match fuel with
  | O => acc
  | S fuel' =>
      if x <=? 0 then acc
      else be_bytes fuel' (x `div` 256) (x `mod` 256 :: acc)
  end.

Definition decode (s : string) : option (list Z) :=
  let cs := list_ascii_of_string s in
  match value 0 cs with
  | Some v => Some (replicate (leading_ones cs) 0 ++ be_bytes (length cs) v [])
  | None => None
  end.

End Base58.

Definition PUBLIC_KEY_LENGTH : nat := 32.

Definition PublicKey (s : string) : option (list Z) :=
  match Base58.decode s with
  | Some bs => if decide (length bs = PUBLIC_KEY_LENGTH) then Some bs else None
  | None => None
  end.

(** [export const programID] of the client and [declare_id!] of the
    program. *)
Definition programID : list Z :=
  Eval vm_compute in
    default [] (PublicKey "7MtYccqQ745U3ohVr6YVibhpvZCMHUer11BR69zYjrZw").

(** [SystemProgram.programId], [system_program::ID]. *)
Definition system_program_ID : list Z :=
  Eval vm_compute in default [] (PublicKey "11111111111111111111111111111111").

(** ** The substrate

    What the derivation and the program take from the ledger substrate: the
    hash ([sha256], 32 bytes of output), the curve membership test of a
    32-byte string and the rent table (the lamports that make an account of
    a given size rent exempt, a [u64]). *)

Class Substrate := {
  sha256 : list Z → list Z;
  is_on_curve : list Z → bool;
  minimum_balance : Z → Z;
  sha256_length : ∀ m, length (sha256 m) = 32%nat;
  sha256_bytes : ∀ m, Forall (λ b, 0 ≤ b < 256) (sha256 m);
  minimum_balance_u64 : ∀ space, 0 ≤ minimum_balance space ≤ U64_MAX;
  }.

(** ** Address derivation, client side ([PublicKey.findProgramAddressSync]) *)

Definition MAX_SEED_LENGTH : nat := 32.

Definition PDA_MARKER : list Z := bytes_of_string "ProgramDerivedAddress".

Inductive JsError : Type :=
  | TypeError_MaxSeedLengthExceeded
  | Error_InvalidSeedsOnCurve
  | Error_NoViableNonce.

Definition seed_too_long (seed : list Z) : bool :=
  bool_decide (MAX_SEED_LENGTH < length seed)%nat.

Inductive PubkeyError : Type :=
    | MaxSeedLengthExceeded
    | InvalidSeeds.

Section Derivation.
Context `{Substrate}.

Definition createProgramAddressSync (seeds : list (list Z)) (programId : list Z)
    : Result JsError (list Z) :=
    if existsb seed_too_long seeds then Err TypeError_MaxSeedLengthExceeded
    else
      let buffer := concat seeds ++ programId ++ PDA_MARKER in
      let publicKeyBytes := sha256 buffer in
      if is_on_curve publicKeyBytes then Err Error_InvalidSeedsOnCurve
      else Ok publicKeyBytes.

(** The loop [while (nonce != 0)]: a [TypeError] is thrown on, any other
      failure decrements the nonce. *)
Fixpoint findProgramAddressSync_from (nonce : nat) (seeds : list (list Z))
      (programId : list Z) : Result JsError (list Z * Z) :=
    match nonce with
    | O => Err Error_NoViableNonce
    | S nonce' =>
        match createProgramAddressSync (seeds ++ [[Z.of_nat nonce]]) programId with
        | Ok address => Ok (address, Z.of_nat nonce)
        | Err TypeError_MaxSeedLengthExceeded => Err TypeError_MaxSeedLengthExceeded
        | Err _ => findProgramAddressSync_from nonce' seeds programId
        end
    end.

Definition findProgramAddressSync (seeds : list (list Z)) (programId : list Z)
    : Result JsError (list Z * Z) :=
    findProgramAddressSync_from 255 seeds programId.

(** [publicKey.toBuffer()] is the 32 bytes of the key. *)
Definition getVaultPDA (publicKey : list Z) : Result JsError (list Z) :=
    '(vaultPDA, _) ← findProgramAddressSync [bytes_of_string "vault"; publicKey] programID;
    Ok vaultPDA.

Definition getCounterPDA (publicKey : list Z) : Result JsError (list Z) :=
    '(counterPDA, _) ← findProgramAddressSync [bytes_of_string "counter"; publicKey] programID;
    Ok counterPDA.

(** ** Address derivation, program side ([Pubkey::find_program_address]) *)

Definition MAX_SEEDS : nat := 16.

Definition create_program_address (seeds : list (list Z)) (program_id : list Z)
    : Result PubkeyError (list Z) :=
    if bool_decide (MAX_SEEDS < length seeds)%nat then Err MaxSeedLengthExceeded
    else if existsb seed_too_long seeds then Err MaxSeedLengthExceeded
    else
      let hash := sha256 (concat seeds ++ program_id ++ PDA_MARKER) in
      if is_on_curve hash then Err InvalidSeeds else Ok hash.

(** [for _ in 0..u8::MAX] with [bump_seed] counting down from [u8::MAX]. *)
Fixpoint try_find_program_address_from (iterations : nat) (bump_seed : Z)
      (seeds : list (list Z)) (program_id : list Z) : option (list Z * Z) :=
    match iterations with
    | O => None
    | S iterations' =>
        match create_program_address (seeds ++ [[bump_seed]]) program_id with
        | Ok address => Some (address, bump_seed)
        | Err InvalidSeeds =>
            try_find_program_address_from iterations' (bump_seed - 1) seeds program_id
        | Err _ => None
        end
    end.

Definition try_find_program_address (seeds : list (list Z)) (program_id : list Z)
    : option (list Z * Z) :=
    try_find_program_address_from 255 255 seeds program_id.

End Derivation.

(** ** The ledger

    An account as the ledger stores it; an address that holds nothing reads
    as the empty account of the system program. *)

Record Account : Type := {
  lamports : Z;
  data : list Z;
  owner : list Z;
}.

Definition empty_account : Account :=
  {| lamports := 0; data := []; owner := system_program_ID |}.

Definition account_at (l : gmap (list Z) Account) (key : list Z) : Account :=
  default empty_account (l !! key).

Definition has_key (keys : list (list Z)) (key : list Z) : bool :=
  bool_decide (key ∈ keys).

(** A ledger is well formed when every balance is a [u64] and every data
    buffer a string of bytes. *)
Definition is_byte (b : Z) : Prop := 0 ≤ b < 256.

Definition valid_account (a : Account) : Prop :=
  (0 ≤ lamports a ≤ U64_MAX) ∧ Forall is_byte (data a).

Definition valid_ledger (l : gmap (list Z) Account) : Prop :=
  map_Forall (λ _ a, valid_account a) l.

Global Instance is_byte_dec b : Decision (is_byte b).
Proof. unfold is_byte. apply _. Defined.

Global Instance valid_account_dec a : Decision (valid_account a).
Proof. unfold valid_account. apply _. Defined.

Global Instance valid_ledger_dec l : Decision (valid_ledger l).
Proof. unfold valid_ledger. apply _. Defined.

(** Errors of the program: Anchor's [ErrorCode]s, the system program's
    errors and the runtime's [InstructionError]s that these instructions can
    meet. A Rust panic ends the instruction with
    [ProgramFailedToComplete]. *)
Inductive Error : Type :=
  | InstructionDidNotDeserialize
  | AccountNotEnoughKeys
  | AccountNotSigner
  | InvalidProgramId
  | AccountNotInitialized
  | AccountOwnedByWrongProgram
  | AccountDiscriminatorNotFound
  | AccountDiscriminatorMismatch
  | AccountDidNotDeserialize
  | AccountDidNotSerialize
  | ConstraintMut
  | ConstraintSeeds
  | ConstraintSpace
  | ConstraintOwner
  | ConstraintRentExempt
  | TryingToInitPayerAsProgramAccount
  | AccountAlreadyInUse
  | ResultWithNegativeLamports
  | InvalidAccountDataLength
  | InvalidArgument
  | PrivilegeEscalation
  | ExternalAccountLamportSpend
  | ArithmeticOverflow
  | BadSeeds
  | ProgramFailedToComplete.

Global Instance Error_eq_dec : EqDecision Error.
Proof. solve_decision. Defined.

(** The error taxonomy of the specification, and the error of the program
    each name stands for. *)
Inductive SpecError : Type :=
  | InsufficientFunds
  | CounterNotFound
  | AddressMismatch
  | UnauthorizedSigner
  | OtherRejection.

Definition classify (e : Error) : SpecError :=
  match e with
  | ResultWithNegativeLamports => InsufficientFunds
  | AccountNotInitialized | AccountOwnedByWrongProgram
  | AccountDiscriminatorNotFound | AccountDiscriminatorMismatch
  | AccountDidNotDeserialize => CounterNotFound
  | ConstraintSeeds => AddressMismatch
  | AccountNotSigner => UnauthorizedSigner
  | _ => OtherRejection
  end.

(** ** The system program *)

Inductive SystemInstruction : Type :=
  | CreateAccount (from to : list Z) (lamports_ space : Z) (owner_ : list Z)
  | Assign (account : list Z) (owner_ : list Z)
  | Transfer (from to : list Z) (lamports_ : Z)
  | Allocate (account : list Z) (space : Z).

Definition required_signers (ix : SystemInstruction) : list (list Z) :=
  match ix with
  | CreateAccount from to _ _ _ => [from; to]
  | Assign account _ => [account]
  | Transfer from _ _ => [from]
  | Allocate account _ => [account]
  end.

Definition required_writable (ix : SystemInstruction) : list (list Z) :=
  match ix with
  | CreateAccount from to _ _ _ => [from; to]
  | Assign account _ => [account]
  | Transfer from to _ => [from; to]
  | Allocate account _ => [account]
  end.

Definition MAX_PERMITTED_DATA_LENGTH : Z := 10 * 1024 * 1024.

Definition set_lamports (key : list Z) (v : Z) (l : gmap (list Z) Account)
  : gmap (list Z) Account :=
  let a := account_at l key in
  <[key := {| lamports := v; data := data a; owner := owner a |}]> l.

Definition set_data (key : list Z) (d : list Z) (l : gmap (list Z) Account)
  : gmap (list Z) Account :=
  let a := account_at l key in
  <[key := {| lamports := lamports a; data := d; owner := owner a |}]> l.

Definition set_owner (key : list Z) (o : list Z) (l : gmap (list Z) Account)
  : gmap (list Z) Account :=
  let a := account_at l key in
  <[key := {| lamports := lamports a; data := data a; owner := o |}]> l.

(** [transfer_verified]: the source account carries no data and holds the
    amount; only the system program's own accounts are debited; the credit
    is a checked addition. The source is released before the destination is
    borrowed, so the two may be the same account. *)
Definition system_transfer (from to : list Z) (amount : Z)
    (l : gmap (list Z) Account) : Result Error (gmap (list Z) Account) :=
  let f := account_at l from in
  if negb (bool_decide (data f = [])) then Err InvalidArgument
  else if lamports f <? amount then Err ResultWithNegativeLamports
  else if negb (bool_decide (owner f = system_program_ID)) && (0 <? amount)
  then Err ExternalAccountLamportSpend
  else
    let l1 := set_lamports from (lamports f - amount) l in
    let t := account_at l1 to in
    if U64_MAX <? lamports t + amount then Err ArithmeticOverflow
    else Ok (set_lamports to (lamports t + amount) l1).

Definition system_allocate (account : list Z) (space : Z)
    (l : gmap (list Z) Account) : Result Error (gmap (list Z) Account) :=
  let a := account_at l account in
  if negb (bool_decide (data a = [])) || negb (bool_decide (owner a = system_program_ID))
  then Err AccountAlreadyInUse
  else if MAX_PERMITTED_DATA_LENGTH <? space then Err InvalidAccountDataLength
  else Ok (set_data account (replicate (Z.to_nat space) 0) l).

Definition system_assign (account : list Z) (owner_ : list Z)
    (l : gmap (list Z) Account) : Result Error (gmap (list Z) Account) :=
  if bool_decide (owner (account_at l account) = owner_) then Ok l
  else Ok (set_owner account owner_ l).

Definition system_create_account (from to : list Z) (lamports_ space : Z)
    (owner_ : list Z) (l : gmap (list Z) Account)
    : Result Error (gmap (list Z) Account) :=
  if 0 <? lamports (account_at l to) then Err AccountAlreadyInUse
  else
    l1 ← system_allocate to space l;
    l2 ← system_assign to owner_ l1;
    system_transfer from to lamports_ l2.

Definition process_system_instruction (ix : SystemInstruction)
    (l : gmap (list Z) Account) : Result Error (gmap (list Z) Account) :=
  match ix with
  | CreateAccount from to lamports_ space owner_ =>
      system_create_account from to lamports_ space owner_ l
  | Assign account owner_ => system_assign account owner_ l
  | Transfer from to lamports_ => system_transfer from to lamports_ l
  | Allocate account space => system_allocate account space l
  end.

(** ** The instruction as the runtime hands it to the program

    The account keys in the order of the instruction, the keys that signed
    the transaction and the keys it marks writable. *)

Inductive VaultInstruction : Type :=
  | IxDeposit (amount : Z)
  | IxWithdraw (amount : Z).

Record Instruction : Type := {
  ix_accounts : list (list Z);
  ix_signers : list (list Z);
  ix_writable : list (list Z);
  ix_data : VaultInstruction;
}.

(** The instruction a client sends ([program.methods.deposit(...).accounts(
    {...}).rpc()]): the four accounts in the order of the IDL, the vault, the
    counter and the signer writable ([isMut]), the signer signing
    ([isSigner]). *)
Definition vault_instruction (who vault counter : list Z) (d : VaultInstruction)
    : Instruction :=
  {| ix_accounts := [vault; counter; who; system_program_ID];
     ix_signers := [who];
     ix_writable := [vault; counter; who];
     ix_data := d |}.

(** The [UserInteractions] account of the program. *)
Record UserInteractions : Type := {
  total_deposits : Z;
  total_withdrawals : Z;
}.

(** The accounts of [Deposit] and of [Withdraw], once validated: the keys of
    the four accounts and the deserialized counter. The two structs have the
    same fields. *)
Record VaultAccounts : Type := {
  user_vault_account : list Z;
  user_interactions_counter : list Z;
  counter_account : UserInteractions;
  signer : list Z;
  system_program : list Z;
}.

Record Context : Type := {
  accounts : VaultAccounts;
  bumps : gmap string Z;
  caller_signers : list (list Z);
  caller_writable : list (list Z);
}.

(** [space = 16 + 8] of the [init_if_needed] attribute. *)
Definition COUNTER_SPACE : Z := 16 + 8.

(** [x += 1] on a [u64], with the overflow checks of the release profile
    that Anchor workspaces build with: an overflow panics. *)
Definition add_assign_u64 (x y : Z) : Result Error Z :=
  if x + y <=? U64_MAX then Ok (x + y) else Err ProgramFailedToComplete.

Section Program.
Context `{Substrate}.

(** [Pubkey::find_program_address] panics when no bump seed is viable. *)
Definition find_program_address (seeds : list (list Z)) (program_id : list Z)
    : Result Error (list Z * Z) :=
  match try_find_program_address seeds program_id with
  | Some found => Ok found
  | None => Err ProgramFailedToComplete
  end.

(** The addresses that [invoke_signed] signs for: one per seed list, derived
    under the calling program's id. *)
Fixpoint derive_signers (signers_seeds : list (list (list Z)))
    : Result Error (list (list Z)) :=
  match signers_seeds with
  | [] => Ok []
  | seeds :: rest =>
      match create_program_address seeds programID with
      | Ok pda => pdas ← derive_signers rest; Ok (pda :: pdas)
      | Err _ => Err BadSeeds
      end
  end.

(** A cross-program invocation of the system program. The callee gets no
    privilege the caller does not hold: every signer the instruction asks
    for signed the transaction or is one of the derived addresses, every
    writable account is writable for the caller. *)
Definition invoke_signed (ix : SystemInstruction)
    (signers_seeds : list (list (list Z))) (ctx_signers ctx_writable : list (list Z))
    (l : gmap (list Z) Account) : Result Error (gmap (list Z) Account) :=
  pdas ← derive_signers signers_seeds;
  if forallb (has_key (pdas ++ ctx_signers)) (required_signers ix)
     && forallb (has_key ctx_writable) (required_writable ix)
  then process_system_instruction ix l
  else Err PrivilegeEscalation.

(** *** The [UserInteractions] account: discriminator and borsh layout *)

Definition DISCRIMINATOR : list Z :=
  take 8 (sha256 (bytes_of_string "account:UserInteractions")).

Definition try_serialize (ui : UserInteractions) : list Z :=
  DISCRIMINATOR ++ to_le_bytes 8 (total_deposits ui) ++ to_le_bytes 8 (total_withdrawals ui).

Definition try_deserialize_unchecked (buf : list Z) : Result Error UserInteractions :=
  if bool_decide (length buf < 8)%nat then Err ProgramFailedToComplete
  else
    let body := drop 8 buf in
    if bool_decide (length body < 16)%nat then Err AccountDidNotDeserialize
    else Ok {| total_deposits := from_le_bytes (take 8 body);
               total_withdrawals := from_le_bytes (take 8 (drop 8 body)) |}.

Definition try_deserialize (buf : list Z) : Result Error UserInteractions :=
  if bool_decide (length buf < 8)%nat then Err AccountDiscriminatorNotFound
  else if negb (bool_decide (take 8 buf = DISCRIMINATOR)) then Err AccountDiscriminatorMismatch
  else try_deserialize_unchecked buf.

(** [Account::<UserInteractions>::try_from] and [try_from_unchecked]. *)
Definition Account_try_from (info : Account) : Result Error UserInteractions :=
  if bool_decide (owner info = system_program_ID) && (lamports info =? 0)
  then Err AccountNotInitialized
  else if negb (bool_decide (owner info = programID)) then Err AccountOwnedByWrongProgram
  else try_deserialize (data info).

Definition Account_try_from_unchecked (info : Account) : Result Error UserInteractions :=
  if bool_decide (owner info = system_program_ID) && (lamports info =? 0)
  then Err AccountNotInitialized
  else if negb (bool_decide (owner info = programID)) then Err AccountOwnedByWrongProgram
  else try_deserialize_unchecked (data info).

Definition is_closed (info : Account) : bool :=
  bool_decide (owner info = system_program_ID) && bool_decide (data info = []).

(** [Account::exit]: the counter is written back over the head of the
    account's data. *)
Definition Account_exit (key : list Z) (ui : UserInteractions)
    (l : gmap (list Z) Account) : Result Error (gmap (list Z) Account) :=
  let info := account_at l key in
  if is_closed info then Ok l
  else
    let image := try_serialize ui in
    if bool_decide (length (data info) < length image)%nat then Err AccountDidNotSerialize
    else Ok (set_data key (image ++ drop (length image) (data info)) l).

(** *** [init_if_needed] of the counter

    The address is checked against the derived one; an account that the
    system program still owns is created (funded by the payer, allocated and
    assigned under the seeds of the address), any other is loaded; then
    size, owner and rent exemption are asserted. *)
Definition create_counter (ix : Instruction) (payer field : list Z)
    (seeds_with_bump : list (list Z)) (l : gmap (list Z) Account)
    : Result Error (gmap (list Z) Account) :=
  let current_lamports := lamports (account_at l field) in
  if current_lamports =? 0 then
    invoke_signed
      (CreateAccount payer field (minimum_balance COUNTER_SPACE) COUNTER_SPACE programID)
      [seeds_with_bump] (ix_signers ix) (ix_writable ix) l
  else if bool_decide (payer = field) then Err TryingToInitPayerAsProgramAccount
  else
    let required_lamports :=
      Z.max 0 (Z.max (minimum_balance COUNTER_SPACE) 1 - current_lamports) in
    l1 ← (if 0 <? required_lamports
          then invoke_signed (Transfer payer field required_lamports) []
                 (ix_signers ix) (ix_writable ix) l
          else Ok l);
    l2 ← invoke_signed (Allocate field COUNTER_SPACE) [seeds_with_bump]
           (ix_signers ix) (ix_writable ix) l1;
    invoke_signed (Assign field programID) [seeds_with_bump]
      (ix_signers ix) (ix_writable ix) l2.

Definition init_if_needed_counter (ix : Instruction) (payer field : list Z)
    (l : gmap (list Z) Account)
    : Result Error (gmap (list Z) Account * UserInteractions * Z) :=
  '(pda_address, bump) ←
    find_program_address [bytes_of_string "counter"; payer] programID;
  if negb (bool_decide (field = pda_address)) then Err ConstraintSeeds
  else
    '(l1, pa) ←
      (if bool_decide (owner (account_at l field) = system_program_ID) then
         l1 ← create_counter ix payer field
                [bytes_of_string "counter"; payer; [bump]] l;
         pa ← Account_try_from_unchecked (account_at l1 field);
         Ok (l1, pa)
       else
         pa ← Account_try_from (account_at l field);
         Ok (l, pa));
    let info := account_at l1 field in
    if negb (bool_decide (Z.of_nat (length (data info)) = COUNTER_SPACE))
    then Err ConstraintSpace
    else if negb (bool_decide (owner info = programID)) then Err ConstraintOwner
    else if lamports info <? minimum_balance COUNTER_SPACE then Err ConstraintRentExempt
    else Ok (l1, pa, bump).

(** *** [#[derive(Accounts)] struct Deposit]

    The accounts are taken in order ([Signer] and [Program] are checked as
    they are taken), then the constraints run: those of the [init_if_needed]
    account first, then those of the others in order, for each account
    [seeds] before [mut]. *)
Definition Deposit_try_accounts (ix : Instruction) (l : gmap (list Z) Account)
    : Result Error (gmap (list Z) Account * Context) :=
  match ix_accounts ix with
  | [] => Err AccountNotEnoughKeys
  | vault_key :: rest1 =>
  match rest1 with
  | [] => Err AccountNotEnoughKeys
  | counter_key :: rest2 =>
  match rest2 with
  | [] => Err AccountNotEnoughKeys
  | signer_key :: rest3 =>
  if negb (has_key (ix_signers ix) signer_key) then Err AccountNotSigner
  else
  match rest3 with
  | [] => Err AccountNotEnoughKeys
  | system_key :: _ =>
  if negb (bool_decide (system_key = system_program_ID)) then Err InvalidProgramId
  else
    '(l1, pa, counter_bump) ← init_if_needed_counter ix signer_key counter_key l;
    if negb (has_key (ix_writable ix) counter_key) then Err ConstraintMut
    else
      '(pda_address, vault_bump) ←
        find_program_address [bytes_of_string "vault"; signer_key] programID;
      if negb (bool_decide (vault_key = pda_address)) then Err ConstraintSeeds
      else if negb (has_key (ix_writable ix) vault_key) then Err ConstraintMut
      else if negb (has_key (ix_writable ix) signer_key) then Err ConstraintMut
      else
        Ok (l1,
            {| accounts :=
                 {| user_vault_account := vault_key;
                    user_interactions_counter := counter_key;
                    counter_account := pa;
                    signer := signer_key;
                    system_program := system_key |};
               bumps := <["user_vault_account" := vault_bump]>
                          (<["user_interactions_counter" := counter_bump]> ∅);
               caller_signers := ix_signers ix;
               caller_writable := ix_writable ix |})
  end end end end.

(** *** [#[derive(Accounts)] struct Withdraw]

    Here the counter is a plain [Account]: it is loaded when it is taken,
    before any constraint runs. *)
Definition Withdraw_try_accounts (ix : Instruction) (l : gmap (list Z) Account)
    : Result Error Context :=
  match ix_accounts ix with
  | [] => Err AccountNotEnoughKeys
  | vault_key :: rest1 =>
  match rest1 with
  | [] => Err AccountNotEnoughKeys
  | counter_key :: rest2 =>
  pa ← Account_try_from (account_at l counter_key);
  match rest2 with
  | [] => Err AccountNotEnoughKeys
  | signer_key :: rest3 =>
  if negb (has_key (ix_signers ix) signer_key) then Err AccountNotSigner
  else
  match rest3 with
  | [] => Err AccountNotEnoughKeys
  | system_key :: _ =>
  if negb (bool_decide (system_key = system_program_ID)) then Err InvalidProgramId
  else
    '(vault_pda, vault_bump) ←
      find_program_address [bytes_of_string "vault"; signer_key] programID;
    if negb (bool_decide (vault_key = vault_pda)) then Err ConstraintSeeds
    else if negb (has_key (ix_writable ix) vault_key) then Err ConstraintMut
    else
      '(counter_pda, counter_bump) ←
        find_program_address [bytes_of_string "counter"; signer_key] programID;
      if negb (bool_decide (counter_key = counter_pda)) then Err ConstraintSeeds
      else if negb (has_key (ix_writable ix) counter_key) then Err ConstraintMut
      else if negb (has_key (ix_writable ix) signer_key) then Err ConstraintMut
      else
        Ok {| accounts :=
                {| user_vault_account := vault_key;
                   user_interactions_counter := counter_key;
                   counter_account := pa;
                   signer := signer_key;
                   system_program := system_key |};
              bumps := <["user_interactions_counter" := counter_bump]>
                         (<["user_vault_account" := vault_bump]> ∅);
              caller_signers := ix_signers ix;
              caller_writable := ix_writable ix |}
  end end end end.

(** *** The instruction handlers of [mod hello_anchor] *)

Definition deposit (ctx : Context) (amount : Z) (l : gmap (list Z) Account)
    : Result Error (gmap (list Z) Account * VaultAccounts) :=
  let a := accounts ctx in
  l1 ← invoke_signed (Transfer (signer a) (user_vault_account a) amount) []
         (caller_signers ctx) (caller_writable ctx) l;
  total ← add_assign_u64 (total_deposits (counter_account a)) 1;
  Ok (l1,
      {| user_vault_account := user_vault_account a;
         user_interactions_counter := user_interactions_counter a;
         counter_account :=
           {| total_deposits := total;
              total_withdrawals := total_withdrawals (counter_account a) |};
         signer := signer a;
         system_program := system_program a |}).

Definition withdraw (ctx : Context) (amount : Z) (l : gmap (list Z) Account)
    : Result Error (gmap (list Z) Account * VaultAccounts) :=
  let a := accounts ctx in
  match bumps ctx !! "user_vault_account" with
  | None => Err ProgramFailedToComplete
  | Some bump =>
      let ix := Transfer (user_vault_account a) (signer a) amount in
      l1 ← invoke_signed ix [[bytes_of_string "vault"; signer a; [bump]]]
             (caller_signers ctx) (caller_writable ctx) l;
      total ← add_assign_u64 (total_withdrawals (counter_account a)) 1;
      Ok (l1,
          {| user_vault_account := user_vault_account a;
             user_interactions_counter := user_interactions_counter a;
             counter_account :=
               {| total_deposits := total_deposits (counter_account a);
                  total_withdrawals := total |};
             signer := signer a;
             system_program := system_program a |})
  end.

(** *** Entry point and transaction

    The argument of either instruction is a [u64]. After the handler the
    accounts are written back ([exit]). A failed instruction fails its
    transaction, and the ledger keeps none of its writes. *)
Definition process_instruction (ix : Instruction) (l : gmap (list Z) Account)
    : Result Error (gmap (list Z) Account) :=
  match ix_data ix with
  | IxDeposit amount =>
      if negb (in_u64 amount) then Err InstructionDidNotDeserialize
      else
        '(l1, ctx) ← Deposit_try_accounts ix l;
        '(l2, a) ← deposit ctx amount l1;
        Account_exit (user_interactions_counter a) (counter_account a) l2
  | IxWithdraw amount =>
      if negb (in_u64 amount) then Err InstructionDidNotDeserialize
      else
        ctx ← Withdraw_try_accounts ix l;
        '(l2, a) ← withdraw ctx amount l;
        Account_exit (user_interactions_counter a) (counter_account a) l2
  end.

Definition execute (l : gmap (list Z) Account) (ix : Instruction)
    : gmap (list Z) Account * Result Error () :=
  match process_instruction ix l with
  | Ok l' => (l', Ok ())
  | Err e => (l, Err e)
  end.

Definition execute_all (l : gmap (list Z) Account) (ixs : list Instruction)
    : gmap (list Z) Account :=
  foldl (λ l ix, fst (execute l ix)) l ixs.

(** *** What is observed of a ledger

    The balance of an address ([connection.getBalance]) and the counter
    record at an address, as the program itself loads it; a counter that
    cannot be loaded reads as zero, as on the page
    ([interactionsData?.totalDeposits ?? 0]). *)
Definition getBalance (l : gmap (list Z) Account) (key : list Z) : Z :=
  lamports (account_at l key).

Definition load_counter (l : gmap (list Z) Account) (key : list Z)
    : option UserInteractions :=
  match Account_try_from (account_at l key) with
  | Ok ui => Some ui
  | Err _ => None
  end.

Definition totalDeposits (l : gmap (list Z) Account) (key : list Z) : Z :=
  from_option total_deposits 0 (load_counter l key).

Definition totalWithdrawals (l : gmap (list Z) Account) (key : list Z) : Z :=
  from_option total_withdrawals 0 (load_counter l key).

End Program.

(** ** Words for the specifications *)

(** [credit k x amount]: what an address [k] gets of an amount sent to [x]. *)
Definition credit (k x : list Z) (amount : Z) : Z :=
  if decide (k = x) then amount else 0.

Definition moved (from to : list Z) (amount : Z) (l l' : gmap (list Z) Account) : Prop :=
  ∀ k, data (account_at l' k) = data (account_at l k)
     ∧ owner (account_at l' k) = owner (account_at l k)
     ∧ lamports (account_at l' k)
       = lamports (account_at l k) + credit k to amount - credit k from amount.

Section Specifications.
Context `{Substrate}.

Definition to_option {E A} (r : Result E A) : option A :=
  match r with Ok a => Some a | Err _ => None end.

(** What the search returns, said without the loop: the address of the
    greatest bump in [1, 255] whose hash is off the curve. *)
Definition derives (seeds : list (list Z)) (program_id : list Z) (r : list Z * Z) : Prop :=
  1 ≤ r.2 ≤ 255
  ∧ createProgramAddressSync (seeds ++ [[r.2]]) program_id = Ok r.1
  ∧ ∀ b, r.2 < b ≤ 255 →
      createProgramAddressSync (seeds ++ [[b]]) program_id = Err Error_InvalidSeedsOnCurve.

Definition u64_fields (ui : UserInteractions) : Prop :=
  (0 ≤ total_deposits ui ≤ U64_MAX) ∧ (0 ≤ total_withdrawals ui ≤ U64_MAX).

(** The state after [create_counter]: [paid] lamports went from the payer to
    the new account, which now belongs to the program and holds
    [COUNTER_SPACE] zero bytes. *)
Definition created (payer c : list Z) (paid : Z) (l l1 : gmap (list Z) Account) : Prop :=
  ∀ k, lamports (account_at l1 k)
       = lamports (account_at l k) + credit k c paid - credit k payer paid
     ∧ owner (account_at l1 k)
       = (if decide (k = c) then programID else owner (account_at l k))
     ∧ data (account_at l1 k)
       = (if decide (k = c) then replicate (Z.to_nat COUNTER_SPACE) 0
          else data (account_at l k)).

Definition counter_ready (payer c : list Z) (paid : Z) (pa : UserInteractions)
    (l l1 : gmap (list Z) Account) : Prop :=
  (∀ k, lamports (account_at l1 k)
        = lamports (account_at l k) + credit k c paid - credit k payer paid)
  ∧ (∀ k, k ≠ c → owner (account_at l1 k) = owner (account_at l k)
                ∧ data (account_at l1 k) = data (account_at l k))
  ∧ owner (account_at l1 c) = programID
  ∧ length (data (account_at l1 c)) = 24%nat
  ∧ total_deposits pa = totalDeposits l c
  ∧ total_withdrawals pa = totalWithdrawals l c
  ∧ (owner (account_at l c) = system_program_ID
     → pa = {| total_deposits := 0; total_withdrawals := 0 |}
       ∧ data (account_at l1 c) = replicate (Z.to_nat COUNTER_SPACE) 0)
  ∧ (owner (account_at l c) ≠ system_program_ID → l1 = l ∧ paid = 0).

Definition deposit_effect (s v c : list Z) (amount paid : Z)
    (l l' : gmap (list Z) Account) : Prop :=
  (∀ k, lamports (account_at l' k)
        = lamports (account_at l k) + credit k c paid - credit k s paid
          + credit k v amount - credit k s amount)
  ∧ (∀ k, k ≠ c → owner (account_at l' k) = owner (account_at l k)
                ∧ data (account_at l' k) = data (account_at l k))
  ∧ owner (account_at l' c) = programID
  ∧ data (account_at l' c)
    = try_serialize {| total_deposits := totalDeposits l c + 1;
                       total_withdrawals := totalWithdrawals l c |}
  ∧ (owner (account_at l c) ≠ system_program_ID → paid = 0).

Definition withdraw_effect (s v c : list Z) (amount : Z) (pa : UserInteractions)
    (l l' : gmap (list Z) Account) : Prop :=
  (∀ k, lamports (account_at l' k)
        = lamports (account_at l k) + credit k s amount - credit k v amount
      ∧ owner (account_at l' k) = owner (account_at l k))
  ∧ (∀ k, k ≠ c → data (account_at l' k) = data (account_at l k))
  ∧ data (account_at l' c)
    = try_serialize {| total_deposits := total_deposits pa;
                       total_withdrawals := total_withdrawals pa + 1 |}
      ++ drop 24 (data (account_at l c)).

Definition canonical_call (who v c : list Z) (ix : Instruction) : Prop :=
  ix_accounts ix = [v; c; who; system_program_ID]
  ∧ who ∈ ix_signers ix
  ∧ v ∈ ix_writable ix ∧ c ∈ ix_writable ix ∧ who ∈ ix_writable ix.

Definition derivation_message (ns who : list Z) (bump : Z) : list Z :=
  concat [ns; who; [bump]] ++ programID ++ PDA_MARKER.

(** An instruction signed by somebody else does not reach the address [k]:
    [k] is neither that signer nor one of the two addresses derived from
    it. *)
Definition unaliased (who k : list Z) (ix : Instruction) : Prop :=
  ∀ s, ix_accounts ix !! 2%nat = Some s → s ≠ who →
       k ≠ s ∧ getVaultPDA s ≠ Ok k ∧ getCounterPDA s ≠ Ok k.

(** The counter account of [who] at [c], allocated and assigned but not
    yet funded, and the ledger once the signer has paid its rent. *)
Definition allocated_counter (c : list Z) (l : gmap (list Z) Account)
    : gmap (list Z) Account :=
  set_owner c programID (set_data c (replicate (Z.to_nat COUNTER_SPACE) 0) l).

Definition with_new_counter (who c : list Z) (l : gmap (list Z) Account)
    : gmap (list Z) Account :=
  let lb := allocated_counter c l in
  set_lamports c (lamports (account_at lb c) + minimum_balance COUNTER_SPACE)
    (set_lamports who (lamports (account_at lb who) - minimum_balance COUNTER_SPACE) lb).

(** The lamports held by a list of accounts. *)
Definition supply (l : gmap (list Z) Account) (ks : list (list Z)) : Z :=
  foldr (λ k acc, getBalance l k + acc) 0 ks.

End Specifications.

(** ** A small substrate to run the definitions on

    A rolling checksum spread over 32 bytes in place of the hash, the parity
    of the first byte in place of the curve test, and the rent table of the
    clusters (two years of 3480 lamports per byte, 128 bytes of overhead). *)

Definition toy_checksum (m : list Z) : Z :=
  foldl (λ acc b, (acc * 257 + b + 1) `mod` (2 ^ 256)) 7 m.

Definition toy_sha256 (m : list Z) : list Z := to_le_bytes 32 (toy_checksum m).

Definition toy_is_on_curve (p : list Z) : bool := Z.even (default 0 (head p)).

Definition cluster_minimum_balance (space : Z) : Z :=
  Z.max 0 (Z.min U64_MAX ((128 + space) * 3480 * 2)).

Lemma toy_sha256_length m : length (toy_sha256 m) = 32%nat.
Proof. reflexivity. Qed.

Lemma toy_sha256_bytes m : Forall (λ b, 0 ≤ b < 256) (toy_sha256 m).
Proof.
  unfold toy_sha256. generalize (toy_checksum m). generalize 32%nat.
  intros n; induction n as [|n IH]; intros x; simpl; constructor; auto.
  apply Z.mod_pos_bound. lia.
Qed.

Lemma cluster_minimum_balance_u64 space : 0 ≤ cluster_minimum_balance space ≤ U64_MAX.
Proof. unfold cluster_minimum_balance, U64_MAX. lia. Qed.

Definition toy : Substrate := {|
  sha256 := toy_sha256;
  is_on_curve := toy_is_on_curve;
  minimum_balance := cluster_minimum_balance;
  sha256_length := toy_sha256_length;
  sha256_bytes := toy_sha256_bytes;
  minimum_balance_u64 := cluster_minimum_balance_u64;
|}.

(** Two owners and their derived addresses on the small substrate, a ledger
    in which only the owners hold lamports, and the ledger after the first
    owner has deposited one unit of 10^9 lamports. *)
Definition alice : list Z := replicate 32 2.
Definition bob : list Z := replicate 32 4.

Definition derived (r : Result JsError (list Z)) : list Z :=
  match r with Ok a => a | Err _ => [] end.

Definition alice_vault : list Z := Eval vm_compute in derived (@getVaultPDA toy alice).
Definition alice_counter : list Z := Eval vm_compute in derived (@getCounterPDA toy alice).
Definition bob_vault : list Z := Eval vm_compute in derived (@getVaultPDA toy bob).
Definition bob_counter : list Z := Eval vm_compute in derived (@getCounterPDA toy bob).

Definition genesis : gmap (list Z) Account :=
  <[alice := {| lamports := 5000000000; data := []; owner := system_program_ID |}]>
    (<[bob := {| lamports := 2000000000; data := []; owner := system_program_ID |}]> ∅).

Definition alice_deposits : Instruction :=
  vault_instruction alice alice_vault alice_counter (IxDeposit 1000000000).

Definition after_deposit : gmap (list Z) Account :=
  (@execute toy genesis alice_deposits).1.

Definition alice_withdraws (amount : Z) : Instruction :=
  vault_instruction alice alice_vault alice_counter (IxWithdraw amount).

Definition bob_deposits : Instruction :=
  vault_instruction bob bob_vault bob_counter (IxDeposit 500000000).

(** A Withdraw of the first owner that names the second owner's vault, and
    one that names the second owner's counter address, where nothing is. *)
Definition alice_names_bob_vault : Instruction :=
  vault_instruction alice bob_vault alice_counter (IxWithdraw 1).

Definition alice_names_bob_counter : Instruction :=
  vault_instruction alice alice_vault bob_counter (IxWithdraw 1).

(** * Proofs *)


Lemma bind_Ok {E A B} (f : A → Result E B) (m : Result E A) b :
  m ≫= f = Ok b → ∃ a, m = Ok a ∧ f a = Ok b.
Proof. destruct m; simpl; eauto. discriminate. Qed.

Ltac inv_bind H :=
  let a := fresh "a" in
  let Ha := fresh "Hstep" in
  apply bind_Ok in H as (a & Ha & H).

Ltac bool_hyps :=
  repeat match goal with
  | H : negb _ = false |- _ => apply negb_false_iff in H
  | H : negb _ = true |- _ => apply negb_true_iff in H
  | H : bool_decide _ = true |- _ => apply bool_decide_eq_true in H
  | H : bool_decide _ = false |- _ => apply bool_decide_eq_false in H
  | H : _ && _ = true |- _ => apply andb_true_iff in H as [? ?]
  | H : _ || _ = false |- _ => apply orb_false_iff in H as [? ?]
  | H : (_ <? _) = false |- _ => apply Z.ltb_ge in H
  | H : (_ <? _) = true |- _ => apply Z.ltb_lt in H
  | H : (_ <=? _) = false |- _ => apply Z.leb_gt in H
  | H : (_ <=? _) = true |- _ => apply Z.leb_le in H
  | H : (_ =? _) = false |- _ => apply Z.eqb_neq in H
  | H : (_ =? _) = true |- _ => apply Z.eqb_eq in H
  end.

(** Split on the [decide] of the goal (and not on one inside a hypothesis). *)
Ltac goal_decide :=
  repeat match goal with
  | |- context [decide ?P] => destruct (decide P); simplify_eq
  end.

(** Split on the first test of a hypothesis [(if c then _ else _) = Ok _]. *)
Ltac case_if H :=
  match type of H with
  | (if ?c then _ else _) = _ =>
      let E := fresh "Hc" in destruct c eqn:E; [try done | try done]
  end.

Tactic Notation "split_if" hyp(H) "as" ident(E) :=
  match type of H with
  | (if ?c then _ else _) = _ => destruct c eqn:E; [try done | try done]
  end.

Lemma account_at_insert l k a k' :
  account_at (<[k := a]> l) k' = if decide (k' = k) then a else account_at l k'.
Proof.
  unfold account_at. rewrite lookup_insert. repeat case_decide; simplify_eq; done.
Qed.

Lemma empty_account_valid : valid_account empty_account.
Proof. split; simpl; [unfold U64_MAX; lia | constructor]. Qed.

Lemma valid_ledger_at l : valid_ledger l ↔ ∀ k, valid_account (account_at l k).
Proof.
  split.
  - intros Hl k. unfold account_at. destruct (l !! k) eqn:E; simpl.
    + eapply Hl; eauto.
    + apply empty_account_valid.
  - intros Hl k a E. specialize (Hl k). unfold account_at in Hl.
    by rewrite E in Hl.
Qed.

Lemma credit_same k amount : credit k k amount = amount.
Proof. unfold credit. by rewrite decide_True. Qed.

Lemma credit_other k x amount : k ≠ x → credit k x amount = 0.
Proof. intros. unfold credit. by rewrite decide_False. Qed.

Lemma system_transfer_spec from to amount l l' :
  system_transfer from to amount l = Ok l' →
  moved from to amount l l'
  ∧ amount ≤ lamports (account_at l from)
  ∧ data (account_at l from) = []
  ∧ (0 < amount → owner (account_at l from) = system_program_ID)
  ∧ lamports (account_at l' to) ≤ U64_MAX.
Proof.
  unfold system_transfer. intros Hok.
  do 4 case_if Hok. simplify_eq.
  apply andb_false_iff in Hc1. bool_hyps.
  split_and!; try done.
  - intros k. unfold set_lamports, credit.
    rewrite !account_at_insert. goal_decide; cbn [lamports data owner];
      rewrite ?account_at_insert; goal_decide; split_and!; try done; lia.
  - intros Hpos. destruct Hc1; bool_hyps; [done | lia].
  - unfold set_lamports in *. rewrite account_at_insert. goal_decide.
    cbn [lamports]. lia.
Qed.

Lemma system_transfer_valid from to amount l l' :
  system_transfer from to amount l = Ok l' → 0 ≤ amount →
  valid_ledger l → valid_ledger l'.
Proof.
  intros Hok Hpos Hl. apply system_transfer_spec in Hok as (Hm & Hle & _ & _ & Hmax).
  apply valid_ledger_at. intros k.
  pose proof (proj1 (valid_ledger_at l) Hl k) as [Hk1 Hk2].
  pose proof (proj1 (valid_ledger_at l) Hl from) as [Hf1 _].
  destruct (Hm k) as (Hd & _ & Hlam). destruct (Hm to) as (_ & _ & Hto).
  split; [|by rewrite Hd].
  rewrite Hlam. rewrite Hto in Hmax. unfold credit in *. goal_decide; lia.
Qed.

Lemma system_allocate_spec account space l l' :
  system_allocate account space l = Ok l' →
  data (account_at l account) = []
  ∧ owner (account_at l account) = system_program_ID
  ∧ ∀ k, lamports (account_at l' k) = lamports (account_at l k)
       ∧ owner (account_at l' k) = owner (account_at l k)
       ∧ data (account_at l' k)
         = if decide (k = account) then replicate (Z.to_nat space) 0
           else data (account_at l k).
Proof.
  unfold system_allocate. intros Hok.
  match type of Hok with (if ?c then _ else _) = _ => destruct c eqn:Huse; [done|] end.
  match type of Hok with (if ?c then _ else _) = _ => destruct c eqn:Hlen; [done|] end.
  simplify_eq.
  bool_hyps. split_and!; try done.
  intros k. unfold set_data. rewrite account_at_insert. by goal_decide.
Qed.

Lemma system_assign_spec account owner_ l l' :
  system_assign account owner_ l = Ok l' →
  ∀ k, lamports (account_at l' k) = lamports (account_at l k)
     ∧ data (account_at l' k) = data (account_at l k)
     ∧ owner (account_at l' k)
       = if decide (k = account) then owner_ else owner (account_at l k).
Proof.
  unfold system_assign. intros Hok k. case_if Hok; simplify_eq; bool_hyps.
  - by goal_decide.
  - unfold set_owner. rewrite account_at_insert. by goal_decide.
Qed.

Lemma system_allocate_valid account space l l' :
  system_allocate account space l = Ok l' → valid_ledger l → valid_ledger l'.
Proof.
  intros Hok Hl. apply system_allocate_spec in Hok as (_ & _ & Hk).
  apply valid_ledger_at. intros k.
  pose proof (proj1 (valid_ledger_at l) Hl k) as [Hk1 Hk2].
  destruct (Hk k) as (Hlam & _ & Hd). split; [by rewrite Hlam|].
  rewrite Hd. goal_decide; [|done].
  apply Forall_replicate. unfold is_byte. lia.
Qed.

Lemma system_assign_valid account owner_ l l' :
  system_assign account owner_ l = Ok l' → valid_ledger l → valid_ledger l'.
Proof.
  intros Hok Hl. apply valid_ledger_at. intros k.
  pose proof (proj1 (valid_ledger_at l) Hl k) as [Hk1 Hk2].
  destruct (system_assign_spec _ _ _ _ Hok k) as (Hlam & Hd & _).
  split; [by rewrite Hlam | by rewrite Hd].
Qed.

Lemma to_le_bytes_length n x : length (to_le_bytes n x) = n.
Proof. revert x. induction n as [|n IH]; intros x; simpl; [done | by rewrite IH]. Qed.

Lemma to_le_bytes_bytes n x : Forall is_byte (to_le_bytes n x).
Proof.
  revert x. induction n as [|n IH]; intros x; simpl; constructor; [|done].
  apply Z.mod_pos_bound. lia.
Qed.

Lemma from_le_bytes_range bs :
  Forall is_byte bs → 0 ≤ from_le_bytes bs < 256 ^ Z.of_nat (length bs).
Proof.
  induction 1 as [|b bs Hb _ IH]; [simpl; lia|].
  cbn [from_le_bytes length]. rewrite Nat2Z.inj_succ, Z.pow_succ_r by lia.
  unfold is_byte in Hb. lia.
Qed.

Lemma from_to_le_bytes n x :
  0 ≤ x < 256 ^ Z.of_nat n → from_le_bytes (to_le_bytes n x) = x.
Proof.
  revert x. induction n as [|n IH]; intros x Hx.
  - simpl in *. lia.
  - cbn [to_le_bytes from_le_bytes]. rewrite IH.
    + pose proof (Z.div_mod x 256). lia.
    + rewrite Nat2Z.inj_succ, Z.pow_succ_r in Hx by lia.
      split; [apply Z.div_pos; lia | apply Z.div_lt_upper_bound; lia].
Qed.

Lemma to_from_le_bytes bs :
  Forall is_byte bs → to_le_bytes (length bs) (from_le_bytes bs) = bs.
Proof.
  induction 1 as [|b bs Hb _ IH]; [done|].
  cbn [length to_le_bytes from_le_bytes]. unfold is_byte in Hb.
  replace ((b + 256 * from_le_bytes bs) `mod` 256) with b.
  - f_equal. etransitivity; [|exact IH]. f_equal.
    rewrite Z.mul_comm, Z.div_add by lia. rewrite Z.div_small; lia.
  - rewrite Z.mul_comm, Z.mod_add by lia. rewrite Z.mod_small; lia.
Qed.

Lemma in_u64_spec x : in_u64 x = true ↔ 0 ≤ x ≤ U64_MAX.
Proof. unfold in_u64. rewrite andb_true_iff, !Z.leb_le. done. Qed.

Lemma u64_bound : 256 ^ Z.of_nat 8 = U64_MAX + 1.
Proof. reflexivity. Qed.

Lemma programID_not_system : programID ≠ system_program_ID.
Proof. discriminate. Qed.

Section ProgramLemmas.
Context `{Substrate}.

(** *** Derivation *)

Lemma createProgramAddressSync_Ok seeds pid a :
  createProgramAddressSync seeds pid = Ok a ↔
  existsb seed_too_long seeds = false
  ∧ a = sha256 (concat seeds ++ pid ++ PDA_MARKER)
  ∧ is_on_curve a = false.
Proof.
  unfold createProgramAddressSync. split.
  - intros Hok. do 2 case_if Hok. by simplify_eq.
  - intros (-> & -> & ->). done.
Qed.

Lemma create_agree seeds pid :
  (length seeds ≤ MAX_SEEDS)%nat →
  create_program_address seeds pid
  = match createProgramAddressSync seeds pid with
    | Ok a => Ok a
    | Err Error_InvalidSeedsOnCurve => Err InvalidSeeds
    | Err _ => Err MaxSeedLengthExceeded
    end.
Proof.
  intros Hlen. unfold create_program_address, createProgramAddressSync.
  rewrite bool_decide_eq_false_2 by lia.
  destruct (existsb seed_too_long seeds); [done|]. cbn zeta.
  by destruct (is_on_curve _).
Qed.

Lemma find_from_agree n seeds pid :
  (length seeds < MAX_SEEDS)%nat →
  try_find_program_address_from n (Z.of_nat n) seeds pid
  = to_option (findProgramAddressSync_from n seeds pid).
Proof.
  intros Hlen. induction n as [|n IH]; [done|].
  cbn [try_find_program_address_from findProgramAddressSync_from].
  rewrite create_agree by (rewrite length_app; simpl; lia).
  destruct (createProgramAddressSync _ _) as [a|[]] eqn:Hc; try done.
  - by replace (Z.of_nat (S n) - 1) with (Z.of_nat n) by lia.
  - unfold createProgramAddressSync in Hc. by do 2 case_if Hc.
Qed.

Lemma find_agree seeds pid :
  (length seeds < MAX_SEEDS)%nat →
  try_find_program_address seeds pid = to_option (findProgramAddressSync seeds pid).
Proof. intros. by apply (find_from_agree 255). Qed.

Lemma find_from_derives n seeds pid r :
  findProgramAddressSync_from n seeds pid = Ok r ↔
  1 ≤ r.2 ≤ Z.of_nat n
  ∧ createProgramAddressSync (seeds ++ [[r.2]]) pid = Ok r.1
  ∧ ∀ b, r.2 < b ≤ Z.of_nat n →
      createProgramAddressSync (seeds ++ [[b]]) pid = Err Error_InvalidSeedsOnCurve.
Proof.
  destruct r as [a bump]. cbn [fst snd]. induction n as [|n IH].
  - simpl. split; [done | lia].
  - cbn [findProgramAddressSync_from].
    destruct (createProgramAddressSync (seeds ++ [[Z.of_nat (S n)]]) pid)
      as [a'|e] eqn:Hc.
    + split.
      * intros ?; simplify_eq. split_and!; [lia | lia | done | lia].
      * intros (Hb & Ha & Hup).
        destruct (decide (bump = Z.of_nat (S n))) as [->|Hne]; [congruence|].
        rewrite Hup in Hc by lia. done.
    + destruct e.
      * split; [done|]. intros (Hb & Ha & Hup).
        destruct (decide (bump = Z.of_nat (S n))) as [->|Hne]; [congruence|].
        rewrite Hup in Hc by lia. done.
      * rewrite IH. split.
        -- intros (Hb & Ha & Hup). split_and!; [lia | lia | done |].
           intros b Hrange.
           destruct (decide (b = Z.of_nat (S n))) as [->|Hne]; [done|].
           apply Hup. lia.
        -- intros (Hb & Ha & Hup).
           destruct (decide (bump = Z.of_nat (S n))) as [->|Hne]; [congruence|].
           split_and!; [lia | lia | done |]. intros b Hrange. apply Hup. lia.
      * unfold createProgramAddressSync in Hc. by do 2 case_if Hc.
Qed.

Lemma find_derives seeds pid r :
  findProgramAddressSync seeds pid = Ok r ↔ derives seeds pid r.
Proof. apply (find_from_derives 255). Qed.

Lemma derives_functional seeds pid r1 r2 :
  derives seeds pid r1 → derives seeds pid r2 → r1 = r2.
Proof.
  destruct r1 as [a1 b1], r2 as [a2 b2].
  intros (Hb1 & Ha1 & Hup1) (Hb2 & Ha2 & Hup2). cbn [fst snd] in *.
  assert (b1 = b2) as ->.
  { destruct (Z.lt_trichotomy b1 b2) as [Hlt|[->|Hlt]]; [|done|].
    - rewrite Hup1 in Ha2 by lia. done.
    - rewrite Hup2 in Ha1 by lia. done. }
  congruence.
Qed.

Lemma find_program_address_Ok seeds a bump :
  (length seeds < MAX_SEEDS)%nat →
  find_program_address seeds programID = Ok (a, bump) ↔
  findProgramAddressSync seeds programID = Ok (a, bump).
Proof.
  intros Hlen. unfold find_program_address. rewrite find_agree by done.
  destruct (findProgramAddressSync seeds programID) as [[a' b']|e]; simpl; [|done].
  split; intros ?; by simplify_eq.
Qed.

Lemma find_program_address_create seeds a bump :
  (length seeds < MAX_SEEDS)%nat →
  find_program_address seeds programID = Ok (a, bump) →
  create_program_address (seeds ++ [[bump]]) programID = Ok a.
Proof.
  intros Hlen Hf. apply find_program_address_Ok in Hf; [|done].
  apply find_derives in Hf as (_ & Hc & _). cbn [fst snd] in Hc.
  rewrite create_agree by (rewrite length_app; simpl; lia). by rewrite Hc.
Qed.

(** *** The counter record *)

Lemma DISCRIMINATOR_length : length DISCRIMINATOR = 8%nat.
Proof. unfold DISCRIMINATOR. rewrite length_take, sha256_length. done. Qed.

Lemma DISCRIMINATOR_bytes : Forall is_byte DISCRIMINATOR.
Proof. unfold DISCRIMINATOR. apply Forall_take, sha256_bytes. Qed.

Lemma try_serialize_length ui : length (try_serialize ui) = 24%nat.
Proof.
  unfold try_serialize.
  by rewrite !length_app, DISCRIMINATOR_length, !to_le_bytes_length.
Qed.

Lemma try_serialize_bytes ui : Forall is_byte (try_serialize ui).
Proof.
  unfold try_serialize. rewrite !Forall_app.
  split_and!; [apply DISCRIMINATOR_bytes | apply to_le_bytes_bytes..].
Qed.

Lemma try_deserialize_unchecked_range buf ui :
  Forall is_byte buf → try_deserialize_unchecked buf = Ok ui → u64_fields ui.
Proof.
  unfold try_deserialize_unchecked. intros Hb Hok. do 2 case_if Hok.
  simplify_eq. bool_hyps.
  assert (∀ bs, Forall is_byte bs → 0 ≤ from_le_bytes (take 8 bs) ≤ U64_MAX) as Hr.
  { intros bs Hbs. pose proof (from_le_bytes_range (take 8 bs)) as Hrange.
    assert (256 ^ Z.of_nat (length (take 8 bs)) ≤ 256 ^ Z.of_nat 8).
    { apply Z.pow_le_mono_r; [lia|]. rewrite length_take. lia. }
    rewrite u64_bound in *. specialize (Hrange (Forall_take _ _ _ Hbs)). lia. }
  split; cbn [total_deposits total_withdrawals]; apply Hr;
    repeat apply Forall_drop; done.
Qed.

Lemma try_deserialize_range buf ui :
  Forall is_byte buf → try_deserialize buf = Ok ui → u64_fields ui.
Proof.
  unfold try_deserialize. intros Hb Hok. do 2 case_if Hok.
  by eapply try_deserialize_unchecked_range.
Qed.

Lemma try_deserialize_unchecked_serialize ui rest :
  u64_fields ui → try_deserialize_unchecked (try_serialize ui ++ rest) = Ok ui.
Proof.
  intros [Hd Hw]. unfold try_deserialize_unchecked.
  rewrite bool_decide_eq_false_2
    by (rewrite length_app, try_serialize_length; lia).
  unfold try_serialize. rewrite <- !app_assoc.
  rewrite drop_app_length' by (symmetry; apply DISCRIMINATOR_length).
  rewrite bool_decide_eq_false_2
    by (rewrite !length_app, !to_le_bytes_length; lia).
  rewrite take_app_length' by (symmetry; apply to_le_bytes_length).
  rewrite drop_app_length' by (symmetry; apply to_le_bytes_length).
  rewrite take_app_length' by (symmetry; apply to_le_bytes_length).
  rewrite !from_to_le_bytes by (rewrite u64_bound; lia).
  by destruct ui.
Qed.

Lemma try_deserialize_serialize ui rest :
  u64_fields ui → try_deserialize (try_serialize ui ++ rest) = Ok ui.
Proof.
  intros Hui. unfold try_deserialize.
  rewrite bool_decide_eq_false_2
    by (rewrite length_app, try_serialize_length; lia).
  rewrite bool_decide_eq_true_2; [by apply try_deserialize_unchecked_serialize|].
  unfold try_serialize. rewrite <- !app_assoc.
  by rewrite take_app_length' by (symmetry; apply DISCRIMINATOR_length).
Qed.

Lemma try_deserialize_unchecked_zeros :
  try_deserialize_unchecked (replicate (Z.to_nat COUNTER_SPACE) 0)
  = Ok {| total_deposits := 0; total_withdrawals := 0 |}.
Proof. reflexivity. Qed.

Lemma Account_try_from_range info ui :
  valid_account info → Account_try_from info = Ok ui → u64_fields ui.
Proof.
  intros [_ Hb] Hok. unfold Account_try_from in Hok. do 2 case_if Hok.
  by eapply try_deserialize_range.
Qed.

Lemma Account_try_from_owner info ui :
  Account_try_from info = Ok ui → owner info = programID.
Proof.
  intros Hok. unfold Account_try_from in Hok. do 2 case_if Hok. by bool_hyps.
Qed.

Lemma Account_try_from_length info ui :
  Account_try_from info = Ok ui → (24 ≤ length (data info))%nat.
Proof.
  intros Hok. unfold Account_try_from in Hok. do 2 case_if Hok.
  unfold try_deserialize in Hok. do 2 case_if Hok.
  unfold try_deserialize_unchecked in Hok. do 2 case_if Hok.
  bool_hyps. rewrite length_drop in *. lia.
Qed.

(** Loading depends on the owner and the data of the account, and on
    nothing else once the program owns it. *)
Lemma Account_try_from_program info :
  owner info = programID → Account_try_from info = try_deserialize (data info).
Proof.
  intros Ho. unfold Account_try_from. rewrite Ho.
  rewrite (bool_decide_eq_false_2 _ programID_not_system).
  by rewrite bool_decide_eq_true_2.
Qed.

Lemma Account_try_from_foreign info :
  owner info ≠ programID → ∃ e, Account_try_from info = Err e.
Proof.
  intros Ho. unfold Account_try_from.
  destruct (_ && _); [eauto|]. rewrite bool_decide_eq_false_2 by done. eauto.
Qed.

(** *** Cross-program invocations *)

Lemma invoke_signed_inv ix signers_seeds cs cw l l' :
  invoke_signed ix signers_seeds cs cw l = Ok l' →
  process_system_instruction ix l = Ok l'.
Proof.
  unfold invoke_signed. intros Hok. inv_bind Hok. by case_if Hok.
Qed.

Lemma create_counter_spec ix payer c seeds l l1 :
  create_counter ix payer c seeds l = Ok l1 →
  ∃ paid, 0 ≤ paid ∧ created payer c paid l l1
    ∧ (valid_ledger l → valid_ledger l1).
Proof.
  unfold create_counter. intros Hok.
  pose proof (minimum_balance_u64 COUNTER_SPACE) as Hrent.
  case_if Hok.
  - apply invoke_signed_inv in Hok. cbn [process_system_instruction] in Hok.
    unfold system_create_account in Hok. case_if Hok.
    inv_bind Hok. inv_bind Hok.
    rename a into l2, a0 into l3.
    exists (minimum_balance COUNTER_SPACE). split; [lia|]. split.
    + apply system_allocate_spec in Hstep as (_ & _ & Ha).
      pose proof (system_assign_spec _ _ _ _ Hstep0) as Hb.
      apply system_transfer_spec in Hok as (Hm & _).
      intros k. destruct (Ha k) as (Ha1 & Ha2 & Ha3).
      destruct (Hb k) as (Hb1 & Hb2 & Hb3). destruct (Hm k) as (Hm1 & Hm2 & Hm3).
      rewrite Hm3, Hm2, Hm1, Hb1, Hb2, Hb3, Ha1, Ha2, Ha3.
      split_and!; [done | by goal_decide | done].
    + intros Hl. eapply system_transfer_valid; [done | lia |].
      eapply system_assign_valid; [done|]. by eapply system_allocate_valid.
  - case_if Hok. inv_bind Hok. inv_bind Hok.
    rename a into l2, a0 into l3.
    apply invoke_signed_inv in Hok, Hstep0.
    cbn [process_system_instruction] in Hok, Hstep0.
    apply system_allocate_spec in Hstep0 as Ha.
    destruct Ha as (_ & _ & Ha).
    pose proof (system_assign_spec _ _ _ _ Hok) as Hb.
    set (required := Z.max 0 (Z.max (minimum_balance COUNTER_SPACE) 1
                              - lamports (account_at l c))) in *.
    case_if Hstep.
    + apply invoke_signed_inv in Hstep. cbn [process_system_instruction] in Hstep.
      exists required. split; [lia|]. split.
      * apply system_transfer_spec in Hstep as (Hm & _).
        intros k. destruct (Ha k) as (Ha1 & Ha2 & Ha3).
        destruct (Hb k) as (Hb1 & Hb2 & Hb3). destruct (Hm k) as (Hm1 & Hm2 & Hm3).
        rewrite Hb1, Hb2, Hb3, Ha1, Ha2, Ha3, Hm3, Hm2, Hm1.
        split_and!; [done | by goal_decide | done].
      * intros Hl. eapply system_assign_valid; [done|].
        eapply system_allocate_valid; [done|].
        eapply system_transfer_valid; [done | lia | done].
    + simplify_eq. exists 0. split; [lia|]. split.
      * intros k. destruct (Ha k) as (Ha1 & Ha2 & Ha3).
        destruct (Hb k) as (Hb1 & Hb2 & Hb3).
        rewrite Hb1, Hb2, Hb3, Ha1, Ha2, Ha3. unfold credit.
        split_and!; [goal_decide; lia | by goal_decide | done].
      * intros Hl. eapply system_assign_valid; [done|].
        by eapply system_allocate_valid.
Qed.

Lemma Account_exit_spec key ui l l' :
  Account_exit key ui l = Ok l' → owner (account_at l key) = programID →
  (24 ≤ length (data (account_at l key)))%nat
  ∧ ∀ k, lamports (account_at l' k) = lamports (account_at l k)
       ∧ owner (account_at l' k) = owner (account_at l k)
       ∧ data (account_at l' k)
         = if decide (k = key)
           then try_serialize ui ++ drop 24 (data (account_at l key))
           else data (account_at l k).
Proof.
  unfold Account_exit, is_closed. intros Hok Ho.
  rewrite Ho, (bool_decide_eq_false_2 _ programID_not_system) in Hok.
  cbn [andb] in Hok. case_if Hok. simplify_eq. bool_hyps.
  rewrite try_serialize_length in *. split; [lia|].
  intros k. unfold set_data. rewrite account_at_insert. by goal_decide.
Qed.

Lemma load_counter_program l k :
  owner (account_at l k) = programID →
  load_counter l k = to_option (try_deserialize (data (account_at l k))).
Proof.
  intros Ho. unfold load_counter. rewrite Account_try_from_program by done.
  by destruct (try_deserialize _).
Qed.

Lemma load_counter_foreign l k :
  owner (account_at l k) ≠ programID → load_counter l k = None.
Proof.
  intros Ho. unfold load_counter.
  by destruct (Account_try_from_foreign _ Ho) as [e ->].
Qed.

Lemma load_counter_ext l l' k :
  owner (account_at l' k) = owner (account_at l k) →
  data (account_at l' k) = data (account_at l k) →
  load_counter l' k = load_counter l k.
Proof.
  intros Ho Hd. destruct (decide (owner (account_at l k) = programID)) as [Hp|Hp].
  - rewrite !load_counter_program by congruence. by rewrite Hd.
  - rewrite !load_counter_foreign by congruence. done.
Qed.

Lemma load_counter_Some l k ui :
  load_counter l k = Some ui ↔ Account_try_from (account_at l k) = Ok ui.
Proof.
  unfold load_counter. destruct (Account_try_from _); split; intros ?; by simplify_eq.
Qed.

(** *** [init_if_needed] *)

Lemma init_if_needed_counter_spec ix payer field l l1 pa bump :
  init_if_needed_counter ix payer field l = Ok (l1, pa, bump) →
  find_program_address [bytes_of_string "counter"; payer] programID = Ok (field, bump)
  ∧ ∃ paid, 0 ≤ paid ∧ counter_ready payer field paid pa l l1
      ∧ (valid_ledger l → valid_ledger l1).
Proof.
  unfold init_if_needed_counter. intros Hok.
  inv_bind Hok. destruct a as [pda b]. cbn beta iota in Hok.
  split_if Hok as Hpda. bool_hyps. subst pda.
  apply bind_Ok in Hok as ([l1' pa'] & Hinit & Hok). cbn beta iota in Hok.
  split_if Hok as Hspace. split_if Hok as Howner. split_if Hok as Hrent.
  simplify_eq. bool_hyps.
  split; [done|].
  split_if Hinit as Hsys; bool_hyps.
  - apply bind_Ok in Hinit as (l2 & Hcreate & Hinit).
    apply bind_Ok in Hinit as (pa2 & Hload & Hinit). simplify_eq.
    apply create_counter_spec in Hcreate as (paid & Hpaid & Hcr & Hval).
    exists paid. split; [done|]. split; [|done].
    assert (load_counter l field = None) as Hnone.
    { apply load_counter_foreign. rewrite Hsys.
      by intros ?%eq_sym%programID_not_system. }
    assert (pa = {| total_deposits := 0; total_withdrawals := 0 |}) as ->.
    { unfold Account_try_from_unchecked in Hload.
      split_if Hload as Hx1. split_if Hload as Hx2.
      destruct (Hcr field) as (_ & _ & Hd). rewrite Hd in Hload.
      rewrite decide_True in Hload by done.
      rewrite try_deserialize_unchecked_zeros in Hload. by simplify_eq. }
    unfold counter_ready, totalDeposits, totalWithdrawals. rewrite Hnone.
    split_and!; try done.
    + intros k. by destruct (Hcr k) as (-> & _).
    + intros k Hk. destruct (Hcr k) as (_ & -> & ->).
      by rewrite !decide_False by done.
    + unfold COUNTER_SPACE in Hspace. lia.
    + intros _. split; [done|]. destruct (Hcr field) as (_ & _ & ->).
      by rewrite decide_True.
  - apply bind_Ok in Hinit as (pa2 & Hload & Hinit). simplify_eq.
    exists 0. split; [done|]. split; [|done].
    unfold counter_ready, totalDeposits, totalWithdrawals.
    apply load_counter_Some in Hload as Hload'. rewrite Hload'.
    split_and!; try done.
    + intros k. unfold credit. goal_decide; lia.
    + unfold COUNTER_SPACE in Hspace. lia.
Qed.

Lemma Account_exit_valid key ui l l' :
  Account_exit key ui l = Ok l' → owner (account_at l key) = programID →
  valid_ledger l → valid_ledger l'.
Proof.
  intros Hok Ho Hl. apply Account_exit_spec in Hok as (_ & Hk); [|done].
  apply valid_ledger_at. intros k.
  pose proof (proj1 (valid_ledger_at l) Hl k) as [Hk1 Hk2].
  pose proof (proj1 (valid_ledger_at l) Hl key) as [_ Hkey].
  destruct (Hk k) as (Hlam & _ & Hd). split; [by rewrite Hlam|].
  rewrite Hd. goal_decide; [|done].
  apply Forall_app. split; [apply try_serialize_bytes | by apply Forall_drop].
Qed.

(** *** The two instructions, end to end *)

Lemma process_deposit_spec ix amount l l' :
  ix_data ix = IxDeposit amount → process_instruction ix l = Ok l' →
  ∃ v c s rest bv bc paid,
    ix_accounts ix = v :: c :: s :: system_program_ID :: rest
    ∧ 0 ≤ amount ≤ U64_MAX
    ∧ s ∈ ix_signers ix
    ∧ findProgramAddressSync [bytes_of_string "vault"; s] programID = Ok (v, bv)
    ∧ findProgramAddressSync [bytes_of_string "counter"; s] programID = Ok (c, bc)
    ∧ 0 ≤ paid
    ∧ deposit_effect s v c amount paid l l'
    ∧ totalDeposits l c + 1 ≤ U64_MAX
    ∧ (valid_ledger l → valid_ledger l').
Proof.
  intros Hdata Hok. unfold process_instruction in Hok. rewrite Hdata in Hok.
  split_if Hok as Hamount. bool_hyps. apply in_u64_spec in Hamount.
  apply bind_Ok in Hok as ([l1 ctx] & Hacc & Hok). cbn beta iota in Hok.
  apply bind_Ok in Hok as ([l2 a] & Hdep & Hok). cbn beta iota in Hok.
  unfold Deposit_try_accounts in Hacc.
  destruct (ix_accounts ix) as [|v [|c [|s [|sk rest]]]] eqn:Haccounts; try done.
  { by split_if Hacc as Hx. }
  split_if Hacc as Hsigner. split_if Hacc as Hsys.
  apply bind_Ok in Hacc as ([[l1' pa] bc] & Hinit & Hacc). cbn beta iota in Hacc.
  split_if Hacc as Hmutc.
  apply bind_Ok in Hacc as ([pda bv] & Hfind & Hacc). cbn beta iota in Hacc.
  split_if Hacc as Hseeds. split_if Hacc as Hmutv. split_if Hacc as Hmuts.
  simplify_eq. bool_hyps. subst pda.
  apply init_if_needed_counter_spec in Hinit
    as (Hfindc & paid & Hpaid & Hready & Hval1).
  destruct Hready as (Hlam1 & Hrest1 & Hown1 & Hlen1 & Htd & Htw & Hzero & Hsame).
  unfold deposit in Hdep. cbn [accounts caller_signers caller_writable
    user_vault_account user_interactions_counter counter_account signer
    system_program] in Hdep.
  apply bind_Ok in Hdep as (l2' & Htransfer & Hdep).
  apply bind_Ok in Hdep as (total & Hadd & Hdep). simplify_eq.
  cbn [user_interactions_counter counter_account] in Hok.
  unfold add_assign_u64 in Hadd. split_if Hadd as Htotal. simplify_eq. bool_hyps.
  apply invoke_signed_inv in Htransfer. cbn [process_system_instruction] in Htransfer.
  pose proof (system_transfer_valid _ _ _ _ _ Htransfer (proj1 Hamount)) as Hval2.
  apply system_transfer_spec in Htransfer as (Hmoved & _).
  assert (owner (account_at l2 c) = programID) as Hown2.
  { destruct (Hmoved c) as (_ & -> & _). done. }
  pose proof (Account_exit_valid _ _ _ _ Hok Hown2) as Hval3.
  apply Account_exit_spec in Hok as (_ & Hexit); [|done].
  apply find_program_address_Ok in Hfind, Hfindc; [|unfold MAX_SEEDS; simpl; lia..].
  exists v, c, s, rest, bv, bc, paid.
  split_and!; try done; try lia.
  - unfold has_key in Hsigner. by bool_hyps.
  - unfold deposit_effect. split_and!.
    + intros k. destruct (Hexit k) as (-> & _). destruct (Hmoved k) as (_ & _ & ->).
      rewrite Hlam1. lia.
    + intros k Hk. destruct (Hexit k) as (_ & -> & ->).
      destruct (Hmoved k) as (-> & -> & _). rewrite decide_False by done.
      by apply Hrest1.
    + destruct (Hexit c) as (_ & -> & _). done.
    + destruct (Hexit c) as (_ & _ & ->). rewrite decide_True by done.
      destruct (Hmoved c) as (Hd2 & _). rewrite drop_ge by (rewrite Hd2; lia).
      by rewrite app_nil_r, Htd, Htw.
    + intros Hns. by destruct (Hsame Hns).
  - auto.
Qed.

Lemma process_withdraw_spec ix amount l l' :
  ix_data ix = IxWithdraw amount → process_instruction ix l = Ok l' →
  ∃ v c s rest bv bc pa,
    ix_accounts ix = v :: c :: s :: system_program_ID :: rest
    ∧ 0 ≤ amount ≤ U64_MAX
    ∧ s ∈ ix_signers ix
    ∧ findProgramAddressSync [bytes_of_string "vault"; s] programID = Ok (v, bv)
    ∧ findProgramAddressSync [bytes_of_string "counter"; s] programID = Ok (c, bc)
    ∧ create_program_address [bytes_of_string "vault"; s; [bv]] programID = Ok v
    ∧ Account_try_from (account_at l c) = Ok pa
    ∧ withdraw_effect s v c amount pa l l'
    ∧ amount ≤ lamports (account_at l v)
    ∧ data (account_at l v) = []
    ∧ total_withdrawals pa + 1 ≤ U64_MAX
    ∧ (valid_ledger l → valid_ledger l').
Proof.
  intros Hdata Hok. unfold process_instruction in Hok. rewrite Hdata in Hok.
  split_if Hok as Hamount. bool_hyps. apply in_u64_spec in Hamount.
  apply bind_Ok in Hok as (ctx & Hacc & Hok).
  apply bind_Ok in Hok as ([l2 a] & Hwd & Hok). cbn beta iota in Hok.
  unfold Withdraw_try_accounts in Hacc.
  destruct (ix_accounts ix) as [|v [|c rest2]] eqn:Haccounts; try done.
  apply bind_Ok in Hacc as (pa & Hload & Hacc).
  destruct rest2 as [|s [|sk rest]]; try done.
  { by split_if Hacc as Hx. }
  split_if Hacc as Hsigner. split_if Hacc as Hsys.
  apply bind_Ok in Hacc as ([vpda bv] & Hfind & Hacc). cbn beta iota in Hacc.
  split_if Hacc as Hseedsv. split_if Hacc as Hmutv.
  apply bind_Ok in Hacc as ([cpda bc] & Hfindc & Hacc). cbn beta iota in Hacc.
  split_if Hacc as Hseedsc. split_if Hacc as Hmutc. split_if Hacc as Hmuts.
  simplify_eq. bool_hyps.
  subst vpda cpda.
  unfold withdraw in Hwd. cbn [accounts caller_signers caller_writable bumps
    user_vault_account user_interactions_counter counter_account signer
    system_program] in Hwd.
  rewrite lookup_insert_ne, lookup_insert_eq in Hwd by done.
  apply bind_Ok in Hwd as (l2' & Htransfer & Hwd).
  apply bind_Ok in Hwd as (total & Hadd & Hwd). simplify_eq.
  cbn [user_interactions_counter counter_account] in Hok.
  unfold add_assign_u64 in Hadd. split_if Hadd as Htotal. simplify_eq. bool_hyps.
  apply invoke_signed_inv in Htransfer. cbn [process_system_instruction] in Htransfer.
  pose proof (system_transfer_valid _ _ _ _ _ Htransfer (proj1 Hamount)) as Hval2.
  apply system_transfer_spec in Htransfer as (Hmoved & Hfunds & Hnodata & _).
  pose proof (Account_try_from_owner _ _ Hload) as Hown.
  assert (owner (account_at l2 c) = programID) as Hown2.
  { destruct (Hmoved c) as (_ & -> & _). done. }
  pose proof (Account_exit_valid _ _ _ _ Hok Hown2) as Hval3.
  apply Account_exit_spec in Hok as (_ & Hexit); [|done].
  assert (create_program_address [bytes_of_string "vault"; s; [bv]] programID = Ok v)
    as Hcreate.
  { apply (find_program_address_create [bytes_of_string "vault"; s]); [|done].
    unfold MAX_SEEDS; simpl; lia. }
  apply find_program_address_Ok in Hfind, Hfindc; [|unfold MAX_SEEDS; simpl; lia..].
  exists v, c, s, rest, bv, bc, pa.
  split_and!; try done; try lia.
  - unfold has_key in Hsigner. by bool_hyps.
  - unfold withdraw_effect. split_and!.
    + intros k. destruct (Hexit k) as (-> & -> & _).
      destruct (Hmoved k) as (_ & -> & ->). done.
    + intros k Hk. destruct (Hexit k) as (_ & _ & ->).
      destruct (Hmoved k) as (-> & _). by rewrite decide_False.
    + destruct (Hexit c) as (_ & _ & ->). rewrite decide_True by done.
      destruct (Hmoved c) as (-> & _). done.
  - auto.
Qed.

(** *** Observations and whole transactions *)

Lemma getVaultPDA_Ok o v :
  getVaultPDA o = Ok v ↔
  ∃ b, findProgramAddressSync [bytes_of_string "vault"; o] programID = Ok (v, b).
Proof.
  unfold getVaultPDA.
  destruct (findProgramAddressSync _ _) as [[a b]|e]; simpl; split.
  - intros ?; simplify_eq. eauto.
  - intros [b' ?]; by simplify_eq.
  - done.
  - by intros [? ?].
Qed.

Lemma getCounterPDA_Ok o c :
  getCounterPDA o = Ok c ↔
  ∃ b, findProgramAddressSync [bytes_of_string "counter"; o] programID = Ok (c, b).
Proof.
  unfold getCounterPDA.
  destruct (findProgramAddressSync _ _) as [[a b]|e]; simpl; split.
  - intros ?; simplify_eq. eauto.
  - intros [b' ?]; by simplify_eq.
  - done.
  - by intros [? ?].
Qed.

Lemma find_getVaultPDA o v b :
  findProgramAddressSync [bytes_of_string "vault"; o] programID = Ok (v, b) →
  getVaultPDA o = Ok v.
Proof. intros. apply getVaultPDA_Ok. eauto. Qed.

Lemma find_getCounterPDA o c b :
  findProgramAddressSync [bytes_of_string "counter"; o] programID = Ok (c, b) →
  getCounterPDA o = Ok c.
Proof. intros. apply getCounterPDA_Ok. eauto. Qed.

Lemma load_counter_range l k ui :
  valid_ledger l → load_counter l k = Some ui → u64_fields ui.
Proof.
  intros Hl Hload. apply load_counter_Some in Hload.
  eapply Account_try_from_range; [|done]. by apply valid_ledger_at.
Qed.

Lemma totals_range l k :
  valid_ledger l →
  (0 ≤ totalDeposits l k ≤ U64_MAX) ∧ (0 ≤ totalWithdrawals l k ≤ U64_MAX).
Proof.
  intros Hl. unfold totalDeposits, totalWithdrawals.
  destruct (load_counter l k) as [ui|] eqn:Hload; simpl.
  - by apply (load_counter_range l k).
  - unfold U64_MAX. lia.
Qed.

Lemma load_counter_written l k ui rest :
  owner (account_at l k) = programID →
  data (account_at l k) = try_serialize ui ++ rest →
  u64_fields ui →
  load_counter l k = Some ui.
Proof.
  intros Ho Hd Hui. rewrite load_counter_program, Hd by done.
  by rewrite try_deserialize_serialize.
Qed.

Lemma account_eq (a b : Account) :
  lamports a = lamports b → data a = data b → owner a = owner b → a = b.
Proof. destruct a, b; simpl; congruence. Qed.

Lemma execute_Err l ix l' e : execute l ix = (l', Err e) → l' = l.
Proof. unfold execute. destruct (process_instruction ix l); intros ?; by simplify_eq. Qed.

Lemma execute_Ok l ix l' u :
  execute l ix = (l', Ok u) ↔ process_instruction ix l = Ok l'.
Proof.
  unfold execute. destruct u.
  destruct (process_instruction ix l); split; intros ?; by simplify_eq.
Qed.

Lemma execute_valid l ix : valid_ledger l → valid_ledger (execute l ix).1.
Proof.
  intros Hl. unfold execute.
  destruct (process_instruction ix l) as [l'|e] eqn:Hp; [|done]. cbn [fst].
  destruct (ix_data ix) as [amount|amount] eqn:Hd.
  - destruct (process_deposit_spec _ _ _ _ Hd Hp)
      as (?&?&?&?&?&?&?&?&?&?&?&?&?&?&?&Hv). auto.
  - destruct (process_withdraw_spec _ _ _ _ Hd Hp)
      as (?&?&?&?&?&?&?&?&?&?&?&?&?&?&?&?&?&?&Hv). auto.
Qed.

Lemma execute_all_valid l ixs : valid_ledger l → valid_ledger (execute_all l ixs).
Proof.
  revert l. induction ixs as [|ix ixs IH]; intros l Hl; [done|].
  apply IH. by apply execute_valid.
Qed.

(** An instruction touches three accounts at most: its signer and the vault
    and counter derived from the signer. *)
Lemma execute_frame l ix l' r k :
  execute l ix = (l', r) →
  (∀ s, ix_accounts ix !! 2%nat = Some s →
        k ≠ s ∧ getVaultPDA s ≠ Ok k ∧ getCounterPDA s ≠ Ok k) →
  account_at l' k = account_at l k.
Proof.
  intros Hex Hfar. destruct r as [[]|e]; [|by rewrite (execute_Err _ _ _ _ Hex)].
  apply execute_Ok in Hex.
  destruct (ix_data ix) as [amount|amount] eqn:Hd.
  - destruct (process_deposit_spec _ _ _ _ Hd Hex)
      as (v&c&s&rest&bv&bc&paid&Hacc&_&_&Hfv&Hfc&_&Heff&_).
    rewrite Hacc in Hfar. destruct (Hfar s eq_refl) as (Hs & Hv & Hc).
    apply find_getVaultPDA in Hfv. apply find_getCounterPDA in Hfc.
    assert (k ≠ v) by congruence. assert (k ≠ c) by congruence.
    destruct Heff as (Hlam & Hrest & _). destruct (Hrest k) as [Ho Hda]; [done|].
    apply account_eq; [|done..]. rewrite Hlam. unfold credit.
    rewrite !decide_False by done. lia.
  - destruct (process_withdraw_spec _ _ _ _ Hd Hex)
      as (v&c&s&rest&bv&bc&pa&Hacc&_&_&Hfv&Hfc&_&_&Heff&_).
    rewrite Hacc in Hfar. destruct (Hfar s eq_refl) as (Hs & Hv & Hc).
    apply find_getVaultPDA in Hfv. apply find_getCounterPDA in Hfc.
    assert (k ≠ v) by congruence. assert (k ≠ c) by congruence.
    destruct Heff as (Hlam & Hrest & _). destruct (Hlam k) as [Hl Ho].
    apply account_eq; [|by apply Hrest|done]. rewrite Hl. unfold credit.
    rewrite !decide_False by done. lia.
Qed.

(** Success of either instruction, for the owner who signed it. *)
Lemma deposit_Ok_owner l ix amount who v c l' :
  valid_ledger l →
  ix_data ix = IxDeposit amount →
  ix_accounts ix !! 2%nat = Some who →
  getVaultPDA who = Ok v →
  getCounterPDA who = Ok c →
  process_instruction ix l = Ok l' →
  ∃ paid, 0 ≤ paid ∧ 0 ≤ amount ≤ U64_MAX
    ∧ deposit_effect who v c amount paid l l'
    ∧ load_counter l' c
      = Some {| total_deposits := totalDeposits l c + 1;
                total_withdrawals := totalWithdrawals l c |}.
Proof.
  intros Hl Hd Hs Hv Hc Hp.
  destruct (process_deposit_spec _ _ _ _ Hd Hp)
    as (v'&c'&s&rest&bv&bc&paid&Hacc&Ham&_&Hfv&Hfc&Hpaid&Heff&Htot&_).
  rewrite Hacc in Hs. cbn in Hs. simplify_eq.
  apply find_getVaultPDA in Hfv. apply find_getCounterPDA in Hfc.
  assert (v' = v) as -> by congruence. assert (c' = c) as -> by congruence.
  exists paid. pose proof Heff as (_ & _ & Hown & Hdata & _).
  split_and!; try done; try lia.
  apply (load_counter_written _ _ _ []); [done | by rewrite app_nil_r |].
  pose proof (totals_range l c Hl). split; cbn; lia.
Qed.

Lemma withdraw_Ok_owner l ix amount who v c l' :
  valid_ledger l →
  ix_data ix = IxWithdraw amount →
  ix_accounts ix !! 2%nat = Some who →
  getVaultPDA who = Ok v →
  getCounterPDA who = Ok c →
  process_instruction ix l = Ok l' →
  ∃ pa, load_counter l c = Some pa ∧ 0 ≤ amount ≤ getBalance l v
    ∧ withdraw_effect who v c amount pa l l'
    ∧ load_counter l' c
      = Some {| total_deposits := total_deposits pa;
                total_withdrawals := total_withdrawals pa + 1 |}.
Proof.
  intros Hl Hd Hs Hv Hc Hp.
  destruct (process_withdraw_spec _ _ _ _ Hd Hp)
    as (v'&c'&s&rest&bv&bc&pa&Hacc&Ham&_&Hfv&Hfc&_&Hload&Heff&Hfunds&_&Htot&_).
  rewrite Hacc in Hs. cbn in Hs. simplify_eq.
  apply find_getVaultPDA in Hfv. apply find_getCounterPDA in Hfc.
  assert (v' = v) as -> by congruence. assert (c' = c) as -> by congruence.
  exists pa. apply load_counter_Some in Hload as Hload'.
  split_and!; try done; try lia.
  destruct Heff as (Hlam & _ & Hdata).
  eapply load_counter_written; [|done|].
  - destruct (Hlam c) as [_ ->]. by eapply Account_try_from_owner.
  - pose proof (load_counter_range l c pa Hl Hload') as [? ?].
    split; cbn; lia.
Qed.

(** C1. When a Deposit succeeds the vault balance has grown by exactly the
    amount and [totalDeposits] by exactly 1; when it fails the ledger is the
    one before the call, so that no part of the deposit is ever visible.
    The vault is an account of its own, distinct from the owner's and from
    the counter. *)
Theorem deposit_all_or_nothing l ix amount who v c l' r :
  valid_ledger l →
  ix_data ix = IxDeposit amount →
  ix_accounts ix !! 2%nat = Some who →
  getVaultPDA who = Ok v →
  getCounterPDA who = Ok c →
  v ≠ who → v ≠ c →
  execute l ix = (l', r) →
  match r with
  | Ok _ => getBalance l' v = getBalance l v + amount
            ∧ totalDeposits l' c = totalDeposits l c + 1
  | Err _ => l' = l
  end.
Proof.
  intros Hl Hd Hs Hv Hc Hvo Hvc Hex. destruct r as [[]|e].
  - apply execute_Ok in Hex.
    destruct (deposit_Ok_owner _ _ _ _ _ _ _ Hl Hd Hs Hv Hc Hex)
      as (paid & _ & _ & (Hlam & _) & Hload).
    split.
    + unfold getBalance.
      rewrite Hlam, credit_same, !credit_other by done. lia.
    + unfold totalDeposits at 1. by rewrite Hload.
  - by eapply execute_Err.
Qed.

(** C2. When a Withdraw succeeds the counter existed and the amount did not
    exceed the vault balance; the vault balance has gone down by exactly the
    amount, the signer's balance up by the amount, and [totalWithdrawals] up
    by exactly 1. *)
Theorem withdraw_success_effect l ix amount who v c l' :
  valid_ledger l →
  ix_data ix = IxWithdraw amount →
  ix_accounts ix !! 2%nat = Some who →
  getVaultPDA who = Ok v →
  getCounterPDA who = Ok c →
  v ≠ who →
  execute l ix = (l', Ok ()) →
  is_Some (load_counter l c)
  ∧ amount ≤ getBalance l v
  ∧ getBalance l' v = getBalance l v - amount
  ∧ getBalance l' who = getBalance l who + amount
  ∧ totalWithdrawals l' c = totalWithdrawals l c + 1.
Proof.
  intros Hl Hd Hs Hv Hc Hvo Hex. apply execute_Ok in Hex.
  destruct (withdraw_Ok_owner _ _ _ _ _ _ _ Hl Hd Hs Hv Hc Hex)
    as (pa & Hload & Ham & (Hlam & _) & Hload').
  split_and!; [eauto | lia | ..].
  - unfold getBalance. destruct (Hlam v) as [-> _].
    rewrite credit_same, credit_other by done. lia.
  - unfold getBalance. destruct (Hlam who) as [-> _].
    rewrite credit_same, credit_other by done. lia.
  - unfold totalWithdrawals. by rewrite Hload, Hload'.
Qed.

(** *** Calls as a client sends them *)

Lemma find_program_address_client seeds a b :
  (length seeds < MAX_SEEDS)%nat →
  findProgramAddressSync seeds programID = Ok (a, b) →
  find_program_address seeds programID = Ok (a, b).
Proof. intros. by apply find_program_address_Ok. Qed.

Lemma has_key_true keys k : k ∈ keys → has_key keys k = true.
Proof. intros. unfold has_key. by apply bool_decide_eq_true. Qed.

(** A Withdraw that passes validation is the transfer, the increment and the
    write-back. *)
Lemma withdraw_validated l ix amount who v c bv bc pa :
  canonical_call who v c ix →
  ix_data ix = IxWithdraw amount →
  in_u64 amount = true →
  findProgramAddressSync [bytes_of_string "vault"; who] programID = Ok (v, bv) →
  findProgramAddressSync [bytes_of_string "counter"; who] programID = Ok (c, bc) →
  Account_try_from (account_at l c) = Ok pa →
  process_instruction ix l
  = (l1 ← system_transfer v who amount l;
     total ← add_assign_u64 (total_withdrawals pa) 1;
     Account_exit c {| total_deposits := total_deposits pa;
                       total_withdrawals := total |} l1).
Proof.
  intros (Hacc & Hs & Hwv & Hwc & Hww) Hd Ham Hfv Hfc Hload.
  assert (create_program_address [bytes_of_string "vault"; who; [bv]] programID = Ok v)
    as Hcreate.
  { apply (find_program_address_create [bytes_of_string "vault"; who]).
    - unfold MAX_SEEDS; simpl; lia.
    - apply find_program_address_client; [unfold MAX_SEEDS; simpl; lia | done]. }
  apply find_program_address_client in Hfv, Hfc; [|unfold MAX_SEEDS; simpl; lia..].
  unfold process_instruction. rewrite Hd, Ham. cbn [negb].
  unfold Withdraw_try_accounts. rewrite Hacc, Hload. cbn [mbind Result_bind].
  rewrite !has_key_true by done. cbn [negb].
  rewrite bool_decide_eq_true_2 by done. cbn [negb].
  rewrite Hfv. cbn [mbind Result_bind]. rewrite bool_decide_eq_true_2 by done.
  cbn [negb]. rewrite Hfc. cbn [mbind Result_bind].
  rewrite bool_decide_eq_true_2 by done. cbn [negb].
  cbn [mbind Result_bind]. unfold withdraw.
  cbn [accounts bumps caller_signers caller_writable
    user_vault_account user_interactions_counter counter_account signer].
  rewrite lookup_insert_ne, lookup_insert_eq by done.
  unfold invoke_signed. cbn [derive_signers]. rewrite Hcreate.
  cbn [mbind Result_bind required_signers required_writable forallb app].
  rewrite (has_key_true (v :: _) v) by set_solver.
  rewrite !has_key_true by done. cbn [andb process_system_instruction].
  destruct (system_transfer v who amount l) as [l1|e]; [|done].
  cbn [mbind Result_bind].
  destruct (add_assign_u64 _ _) as [total|e]; done.
Qed.

Lemma set_lamports_owner k x l k' :
  owner (account_at (set_lamports k x l) k') = owner (account_at l k').
Proof. unfold set_lamports. rewrite account_at_insert. by goal_decide. Qed.

Lemma set_lamports_data k x l k' :
  data (account_at (set_lamports k x l) k') = data (account_at l k').
Proof. unfold set_lamports. rewrite account_at_insert. by goal_decide. Qed.

Lemma Account_exit_program key ui l :
  owner (account_at l key) = programID →
  (24 ≤ length (data (account_at l key)))%nat →
  Account_exit key ui l
  = Ok (set_data key (try_serialize ui ++ drop 24 (data (account_at l key))) l).
Proof.
  intros Ho Hlen. unfold Account_exit, is_closed.
  rewrite Ho, (bool_decide_eq_false_2 _ programID_not_system). cbn [andb].
  rewrite try_serialize_length. by rewrite bool_decide_eq_false_2 by lia.
Qed.

Lemma system_transfer_short from to amount l :
  data (account_at l from) = [] →
  lamports (account_at l from) < amount →
  system_transfer from to amount l = Err ResultWithNegativeLamports.
Proof.
  intros Hd Hlt. unfold system_transfer.
  rewrite bool_decide_eq_true_2 by done. cbn [negb].
  by rewrite (proj2 (Z.ltb_lt _ _) Hlt).
Qed.

Lemma system_transfer_funded from to amount l :
  data (account_at l from) = [] →
  owner (account_at l from) = system_program_ID →
  amount ≤ lamports (account_at l from) →
  from ≠ to →
  lamports (account_at l to) + amount ≤ U64_MAX →
  system_transfer from to amount l
  = Ok (set_lamports to (lamports (account_at l to) + amount)
          (set_lamports from (lamports (account_at l from) - amount) l)).
Proof.
  intros Hd Ho Hle Hne Hmax. unfold system_transfer.
  rewrite !bool_decide_eq_true_2 by done. cbn [negb andb].
  rewrite (proj2 (Z.ltb_ge _ _) Hle).
  assert (account_at (set_lamports from (lamports (account_at l from) - amount) l) to
          = account_at l to) as Hto.
  { unfold set_lamports. rewrite account_at_insert. by rewrite decide_False. }
  rewrite Hto. by rewrite (proj2 (Z.ltb_ge _ _) Hmax).
Qed.

(** C3. A Withdraw of more than the vault holds fails with the system
    program's insufficient-funds error and leaves the ledger as it was
    (vault balance, signer balance and both counters with it). A Withdraw of
    exactly the balance succeeds and leaves the vault in the ledger with
    balance zero, still a plain account of the system program. *)
Theorem withdraw_bounded_by_balance l ix amount who v c :
  canonical_call who v c ix →
  ix_data ix = IxWithdraw amount →
  in_u64 amount = true →
  getVaultPDA who = Ok v →
  getCounterPDA who = Ok c →
  is_Some (load_counter l c) →
  data (account_at l v) = [] →
  (getBalance l v < amount →
     execute l ix = (l, Err ResultWithNegativeLamports)
     ∧ classify ResultWithNegativeLamports = InsufficientFunds)
  ∧ (amount = getBalance l v →
     owner (account_at l v) = system_program_ID →
     v ≠ who →
     getBalance l who + amount ≤ U64_MAX →
     totalWithdrawals l c < U64_MAX →
     ∃ l', execute l ix = (l', Ok ())
           ∧ getBalance l' v = 0
           ∧ is_Some (l' !! v)
           ∧ owner (account_at l' v) = system_program_ID
           ∧ data (account_at l' v) = []).
Proof.
  intros Hcall Hd Ham Hv Hc [pa Hload] Hnodata.
  apply getVaultPDA_Ok in Hv as Hv'. destruct Hv' as [bv Hfv].
  apply getCounterPDA_Ok in Hc as Hc'. destruct Hc' as [bc Hfc].
  apply load_counter_Some in Hload as Hfrom.
  pose proof (withdraw_validated l ix amount who v c bv bc pa
                Hcall Hd Ham Hfv Hfc Hfrom) as Hrun.
  split.
  - intros Hlt. split; [|done]. unfold execute. rewrite Hrun.
    by rewrite system_transfer_short.
  - intros -> Hsys Hne Hmax Htw. unfold getBalance in *.
    rewrite system_transfer_funded in Hrun by (done || lia).
    cbn [mbind Result_bind] in Hrun.
    unfold totalWithdrawals in Htw. rewrite Hload in Htw. cbn in Htw.
    unfold add_assign_u64 in Hrun.
    rewrite (proj2 (Z.leb_le _ _)) in Hrun by lia.
    cbn [mbind Result_bind] in Hrun.
    set (l1 := set_lamports who _ (set_lamports v _ l)) in *.
    assert (c ≠ v) as Hcv.
    { intros ->. apply Account_try_from_owner in Hfrom.
      rewrite Hsys in Hfrom. by apply programID_not_system. }
    assert (∀ k, k ≠ who → k ≠ v → account_at l1 k = account_at l k) as Hl1.
    { intros k ? ?. unfold l1, set_lamports.
      rewrite !account_at_insert. by rewrite !decide_False. }
    assert (account_at l1 v
            = {| lamports := 0; data := data (account_at l v);
                 owner := owner (account_at l v) |}) as Hl1v.
    { unfold l1, set_lamports. rewrite !account_at_insert.
      rewrite decide_False, decide_True by done. f_equal. lia. }
    assert (is_Some (l1 !! v)) as Hin.
    { unfold l1, set_lamports. rewrite lookup_insert_ne, lookup_insert_eq by done.
      eauto. }
    rewrite Account_exit_program in Hrun; cycle 1.
    { unfold l1. rewrite !set_lamports_owner. by eapply Account_try_from_owner. }
    { unfold l1. rewrite !set_lamports_data. by eapply Account_try_from_length. }
    eexists. split; [unfold execute; by rewrite Hrun|].
    unfold set_data. rewrite account_at_insert, decide_False by done.
    rewrite lookup_insert_ne by done. rewrite Hl1v. cbn.
    by rewrite Hnodata.
Qed.

(** C4. For an owner whose counter was never created (the address derived
    for it is still an account of the system program, empty or merely
    funded), every Withdraw the owner signs fails and leaves the ledger as it
    was, so that no account is created. When the call names the owner's
    counter address the error is the one of the account loader:
    [AccountNotInitialized] for an address that holds nothing,
    [AccountOwnedByWrongProgram] for one that holds lamports only; both read
    as [CounterNotFound]. *)
Theorem withdraw_before_deposit l ix amount who c :
  ix_data ix = IxWithdraw amount →
  ix_accounts ix !! 2%nat = Some who →
  getCounterPDA who = Ok c →
  owner (account_at l c) = system_program_ID →
  ∃ e, execute l ix = (l, Err e)
       ∧ (in_u64 amount = true → ix_accounts ix !! 1%nat = Some c →
          e = (if lamports (account_at l c) =? 0 then AccountNotInitialized
               else AccountOwnedByWrongProgram)
          ∧ classify e = CounterNotFound).
Proof.
  intros Hd Hs Hc Hsys.
  destruct (process_instruction ix l) as [l'|e] eqn:Hp.
  - exfalso.
    destruct (process_withdraw_spec _ _ _ _ Hd Hp)
      as (v'&c'&s&rest&bv&bc&pa&Hacc&_&_&_&Hfc&_&Hload&_).
    rewrite Hacc in Hs. cbn in Hs. simplify_eq.
    apply find_getCounterPDA in Hfc. assert (c' = c) as -> by congruence.
    apply Account_try_from_owner in Hload. rewrite Hsys in Hload.
    by apply programID_not_system.
  - exists e. split; [unfold execute; by rewrite Hp|].
    intros Ham Hc1. unfold process_instruction in Hp. rewrite Hd, Ham in Hp.
    cbn [negb] in Hp. unfold Withdraw_try_accounts in Hp.
    destruct (ix_accounts ix) as [|v' [|c' rest]]; try done.
    cbn in Hc1. assert (c' = c) as -> by congruence.
    unfold Account_try_from in Hp. rewrite Hsys in Hp.
    rewrite bool_decide_eq_true_2 in Hp by done. cbn [andb] in Hp.
    destruct (lamports (account_at l c) =? 0); cbn in Hp; [by simplify_eq|].
    rewrite bool_decide_eq_false_2 in Hp
      by (by intros ?%eq_sym%programID_not_system).
    cbn in Hp. by simplify_eq.
Qed.

(** C5 (amended). Every Deposit or Withdraw, whatever else it names or
    signs, that supplies a vault or a counter address other than the one
    derived from its signer (its third account) is rejected and changes
    nothing. The error is [ConstraintSeeds] (AddressMismatch) when the call is
    otherwise in order: the signer has signed, the system program is the
    fourth account, the three accounts are writable, the amount is a [u64],
    and the account supplied as the counter loads as a counter (for a
    Deposit: of 24 bytes and rent exempt). A call that fails another check
    too may report that one: a Withdraw of a [u64] amount that names as its
    counter an address at which there is no account fails with
    [AccountNotInitialized], whatever else it names. A Withdraw that
    succeeds names the derived addresses, its vault is the address that the
    seeds [["vault", signer, [bump]]] give with the bump found by the
    search, and no other account is debited. *)
Theorem address_mismatch_rejected l ix who v c v' c' rest :
  getVaultPDA who = Ok v →
  getCounterPDA who = Ok c →
  ix_accounts ix = v' :: c' :: who :: rest →
  ((v' ≠ v ∨ c' ≠ c) → ∃ e, execute l ix = (l, Err e))
  ∧ (∀ amount rest',
       (v' ≠ v ∨ c' ≠ c) →
       rest = system_program_ID :: rest' →
       who ∈ ix_signers ix →
       v' ∈ ix_writable ix → c' ∈ ix_writable ix → who ∈ ix_writable ix →
       in_u64 amount = true →
       is_Some (load_counter l c') →
       (ix_data ix = IxWithdraw amount →
        execute l ix = (l, Err ConstraintSeeds))
       ∧ (ix_data ix = IxDeposit amount →
          length (data (account_at l c')) = 24%nat →
          minimum_balance COUNTER_SPACE ≤ getBalance l c' →
          execute l ix = (l, Err ConstraintSeeds)))
  ∧ classify ConstraintSeeds = AddressMismatch
  ∧ (∀ amount,
       ix_data ix = IxWithdraw amount → in_u64 amount = true →
       owner (account_at l c') = system_program_ID →
       getBalance l c' = 0 →
       execute l ix = (l, Err AccountNotInitialized))
  ∧ (∀ l' amount,
       ix_data ix = IxWithdraw amount → execute l ix = (l', Ok ()) →
       v' = v ∧ c' = c
       ∧ (∃ bump,
            findProgramAddressSync [bytes_of_string "vault"; who] programID
            = Ok (v, bump)
            ∧ create_program_address [bytes_of_string "vault"; who; [bump]] programID
              = Ok v)
       ∧ ∀ k, lamports (account_at l' k) < lamports (account_at l k) → k = v).
Proof.
  intros Hv Hc Hacc.
  apply getVaultPDA_Ok in Hv as Hv'. destruct Hv' as [bv Hfv].
  apply getCounterPDA_Ok in Hc as Hc'. destruct Hc' as [bc Hfc].
  assert (find_program_address [bytes_of_string "vault"; who] programID = Ok (v, bv))
    as Hpv by (apply find_program_address_client; [unfold MAX_SEEDS; simpl; lia | done]).
  assert (find_program_address [bytes_of_string "counter"; who] programID = Ok (c, bc))
    as Hpc by (apply find_program_address_client; [unfold MAX_SEEDS; simpl; lia | done]).
  split_and!.
  - intros Hmis. destruct (process_instruction ix l) as [l'|e] eqn:Hp;
      [exfalso | exists e; unfold execute; by rewrite Hp].
    destruct (ix_data ix) as [a|a] eqn:Hd.
    + destruct (process_deposit_spec _ _ _ _ Hd Hp)
        as (v2&c2&s&rest2&bv2&bc2&paid&Hacc2&_&_&Hfv2&Hfc2&_).
      rewrite Hacc in Hacc2. simplify_eq. rewrite Hfv in Hfv2. rewrite Hfc in Hfc2.
      simplify_eq. by destruct Hmis.
    + destruct (process_withdraw_spec _ _ _ _ Hd Hp)
        as (v2&c2&s&rest2&bv2&bc2&pa&Hacc2&_&_&Hfv2&Hfc2&_).
      rewrite Hacc in Hacc2. simplify_eq. rewrite Hfv in Hfv2. rewrite Hfc in Hfc2.
      simplify_eq. by destruct Hmis.
  - intros amount rest' Hmis -> Hs Hwv Hwc Hww Ham [pa Hload].
    apply load_counter_Some in Hload.
    pose proof (Account_try_from_owner _ _ Hload) as Hown.
    split.
    + intros Hd. unfold execute, process_instruction. rewrite Hd, Ham. cbn [negb].
      unfold Withdraw_try_accounts. rewrite Hacc, Hload. cbn [mbind Result_bind].
      rewrite !has_key_true by done. cbn [negb].
      rewrite bool_decide_eq_true_2 by done. cbn [negb].
      rewrite Hpv. cbn [mbind Result_bind].
      destruct (decide (v' = v)) as [->|Hne].
      * rewrite bool_decide_eq_true_2 by done. cbn [negb].
        rewrite Hpc. cbn [mbind Result_bind].
        destruct Hmis as [?|Hne]; [done|]. by rewrite bool_decide_eq_false_2.
      * by rewrite bool_decide_eq_false_2.
    + intros Hd Hlen Hrent. unfold getBalance in Hrent.
      unfold execute, process_instruction. rewrite Hd, Ham. cbn [negb].
      unfold Deposit_try_accounts. rewrite Hacc.
      rewrite !has_key_true by done. cbn [negb].
      rewrite bool_decide_eq_true_2 by done. cbn [negb].
      unfold init_if_needed_counter. rewrite Hpc. cbn [mbind Result_bind].
      cbn beta iota.
      destruct (decide (c' = c)) as [->|Hne]; [|by rewrite bool_decide_eq_false_2].
      destruct Hmis as [Hne|?]; [|done].
      rewrite (bool_decide_eq_true_2 (c = c)) by done. cbn [negb].
      rewrite Hown. rewrite (bool_decide_eq_false_2 _ programID_not_system).
      rewrite Hload. cbn [mbind Result_bind]. cbn beta iota zeta.
      rewrite Hlen. rewrite (bool_decide_eq_true_2 (Z.of_nat 24 = COUNTER_SPACE)) by done.
      cbn [negb]. rewrite Hown.
      rewrite (bool_decide_eq_true_2 (programID = programID)) by done. cbn [negb].
      rewrite (proj2 (Z.ltb_ge _ _) Hrent). cbn [mbind Result_bind]. cbn beta iota.
      rewrite Hpv. cbn [mbind Result_bind]. cbn beta iota.
      by rewrite bool_decide_eq_false_2.
  - reflexivity.
  - intros amount Hd Ham Hsys Hzero. unfold getBalance in Hzero.
    unfold execute, process_instruction. rewrite Hd, Ham. cbn [negb].
    unfold Withdraw_try_accounts. rewrite Hacc.
    unfold Account_try_from. rewrite Hsys, Hzero.
    by rewrite bool_decide_eq_true_2.
  - intros l' amount Hd Hex. apply execute_Ok in Hex.
    destruct (process_withdraw_spec _ _ _ _ Hd Hex)
      as (v2&c2&s&rest2&bv2&bc2&pa&Hacc2&Ham2&_&Hfv2&Hfc2&Hcreate&_&Heff&_).
    rewrite Hacc in Hacc2. simplify_eq. rewrite Hfv in Hfv2. rewrite Hfc in Hfc2.
    simplify_eq. split_and!; [reflexivity | reflexivity | exists bv2; by split |].
    intros k Hlt. destruct Heff as (Hlam & _). destruct (Hlam k) as [Hk _].
    rewrite Hk in Hlt. unfold credit in Hlt.
    destruct (decide (k = v2)); [done|]. destruct (decide (k = s)); lia.
Qed.

(** *** Derived addresses and the hash *)

Lemma find_hash ns who a b :
  findProgramAddressSync [ns; who] programID = Ok (a, b) →
  a = sha256 (derivation_message ns who b) ∧ is_on_curve a = false.
Proof.
  intros Hf. apply find_derives in Hf as (_ & Hc & _). cbn [fst snd] in Hc.
  apply createProgramAddressSync_Ok in Hc as (_ & -> & Hoff). done.
Qed.

Lemma derivation_message_inj ns who1 who2 b1 b2 :
  derivation_message ns who1 b1 = derivation_message ns who2 b2 → who1 = who2.
Proof.
  unfold derivation_message. cbn [concat]. rewrite <- !app_assoc.
  intros Heq%app_inv_head.
  assert (length who1 = length who2) as Hlen.
  { apply (f_equal length) in Heq. rewrite !length_app in Heq. simpl in Heq. lia. }
  by apply app_inj_1 in Heq as [? _].
Qed.

Lemma derivation_message_namespace who1 who2 b1 b2 :
  derivation_message (bytes_of_string "vault") who1 b1
  ≠ derivation_message (bytes_of_string "counter") who2 b2.
Proof. unfold derivation_message. cbn. discriminate. Qed.

(** C6. The derivation is a function of the namespace, the identity and the
    program id alone: the client's [getVaultPDA] and [getCounterPDA] return
    exactly the address of the greatest bump in [1, 255] whose hash is off
    the curve, at most one pair of address and bump fits that description,
    and the search of the program ([find_program_address], which the seeds
    constraints run) returns the same address and the same bump as the
    search of the client. *)
Theorem derivation_deterministic who :
  (∀ a, getVaultPDA who = Ok a ↔
        ∃ b, derives [bytes_of_string "vault"; who] programID (a, b))
  ∧ (∀ a, getCounterPDA who = Ok a ↔
          ∃ b, derives [bytes_of_string "counter"; who] programID (a, b))
  ∧ (∀ ns r1 r2, derives [ns; who] programID r1 →
                 derives [ns; who] programID r2 → r1 = r2)
  ∧ (∀ ns, try_find_program_address [ns; who] programID
           = to_option (findProgramAddressSync [ns; who] programID)).
Proof.
  split_and!.
  - intros a. rewrite getVaultPDA_Ok. by setoid_rewrite find_derives.
  - intros a. rewrite getCounterPDA_Ok. by setoid_rewrite find_derives.
  - intros ns r1 r2. apply derives_functional.
  - intros ns. apply find_agree. unfold MAX_SEEDS. simpl. lia.
Qed.

(** *** Sequences of instructions *)

Lemma process_signer ix l l' :
  process_instruction ix l = Ok l' → ∃ s, ix_accounts ix !! 2%nat = Some s.
Proof.
  intros Hp. destruct (ix_data ix) as [a|a] eqn:Hd.
  - destruct (process_deposit_spec _ _ _ _ Hd Hp) as (?&?&s&?&?&?&?&Hacc&_).
    exists s. by rewrite Hacc.
  - destruct (process_withdraw_spec _ _ _ _ Hd Hp) as (?&?&s&?&?&?&?&Hacc&_).
    exists s. by rewrite Hacc.
Qed.

Lemma execute_other l ix l' r who k :
  unaliased who k ix →
  (∀ s, ix_accounts ix !! 2%nat = Some s → s ≠ who) →
  execute l ix = (l', r) →
  account_at l' k = account_at l k.
Proof.
  intros Hun Hs Hex. eapply execute_frame; [done|].
  intros s Hsig. apply Hun; [done|]. by apply Hs.
Qed.

(** C8. The vault balance of an owner moves only with the owner's own
    successful instructions: a transaction leaves it unchanged, or is a
    successful Deposit of the owner and adds the amount, or is a successful
    Withdraw of the owner and takes the amount, which the vault held. No
    sequence of instructions makes it negative. *)
Theorem vault_balance_evolution who v c :
  getVaultPDA who = Ok v →
  getCounterPDA who = Ok c →
  v ≠ who → v ≠ c →
  (∀ l ix l' r,
     valid_ledger l → unaliased who v ix → execute l ix = (l', r) →
     getBalance l' v = getBalance l v
     ∨ (∃ amount, r = Ok () ∧ ix_accounts ix !! 2%nat = Some who
          ∧ ix_data ix = IxDeposit amount
          ∧ getBalance l' v = getBalance l v + amount)
     ∨ (∃ amount, r = Ok () ∧ ix_accounts ix !! 2%nat = Some who
          ∧ ix_data ix = IxWithdraw amount
          ∧ amount ≤ getBalance l v
          ∧ getBalance l' v = getBalance l v - amount))
  ∧ (∀ l ixs, valid_ledger l → 0 ≤ getBalance (execute_all l ixs) v).
Proof.
  intros Hv Hc Hvo Hvc. split.
  - intros l ix l' r Hl Hun Hex. destruct r as [[]|e];
      [|left; by rewrite (execute_Err _ _ _ _ Hex)].
    pose proof Hex as Hp. apply execute_Ok in Hp.
    destruct (process_signer _ _ _ Hp) as [s Hs].
    destruct (decide (s = who)) as [->|Hne].
    + destruct (ix_data ix) as [amount|amount] eqn:Hd.
      * right; left. exists amount.
        destruct (deposit_Ok_owner _ _ _ _ _ _ _ Hl Hd Hs Hv Hc Hp)
          as (paid & _ & _ & (Hlam & _) & _).
        split_and!; try done. unfold getBalance.
        rewrite Hlam, credit_same, !credit_other by done. lia.
      * right; right. exists amount.
        destruct (withdraw_Ok_owner _ _ _ _ _ _ _ Hl Hd Hs Hv Hc Hp)
          as (pa & _ & Ham & (Hlam & _) & _).
        split_and!; try done; [lia|]. unfold getBalance.
        destruct (Hlam v) as [-> _]. rewrite credit_same, credit_other by done. lia.
    + left. unfold getBalance. f_equal.
      eapply execute_other; [done | | done].
      intros s' Hs'. congruence.
  - intros l ixs Hl. pose proof (execute_all_valid l ixs Hl) as Hfin.
    apply valid_ledger_at with (k := v) in Hfin as [? _]. unfold getBalance. lia.
Qed.

Lemma execute_counter_step l ix l' who c :
  valid_ledger l →
  getCounterPDA who = Ok c →
  ix_accounts ix !! 2%nat = Some who →
  execute l ix = (l', Ok ()) →
  match ix_data ix with
  | IxDeposit _ =>
      totalDeposits l' c = totalDeposits l c + 1
      ∧ totalWithdrawals l' c = totalWithdrawals l c
  | IxWithdraw _ =>
      totalWithdrawals l' c = totalWithdrawals l c + 1
      ∧ totalDeposits l' c = totalDeposits l c
  end.
Proof.
  intros Hl Hc Hs Hex. apply execute_Ok in Hex.
  destruct (process_signer _ _ _ Hex) as [s Hs']. assert (s = who) as -> by congruence.
  destruct (ix_data ix) as [amount|amount] eqn:Hd.
  - destruct (process_deposit_spec _ _ _ _ Hd Hex)
      as (v&c'&s&rest&bv&bc&paid&Hacc&_&_&Hfv&_).
    rewrite Hacc in Hs. cbn in Hs. simplify_eq. apply find_getVaultPDA in Hfv.
    destruct (deposit_Ok_owner _ _ _ _ _ _ _ Hl Hd Hs' Hfv Hc Hex)
      as (paid' & _ & _ & _ & Hload).
    unfold totalDeposits at 1, totalWithdrawals at 1. by rewrite Hload.
  - destruct (process_withdraw_spec _ _ _ _ Hd Hex)
      as (v&c'&s&rest&bv&bc&pa0&Hacc&_&_&Hfv&_).
    rewrite Hacc in Hs. cbn in Hs. simplify_eq. apply find_getVaultPDA in Hfv.
    destruct (withdraw_Ok_owner _ _ _ _ _ _ _ Hl Hd Hs' Hfv Hc Hex)
      as (pa & Hload0 & _ & _ & Hload).
    unfold totalDeposits, totalWithdrawals. by rewrite Hload, Hload0.
Qed.

Lemma execute_counter_monotone l ix who c :
  valid_ledger l →
  getCounterPDA who = Ok c →
  unaliased who c ix →
  totalDeposits l c ≤ totalDeposits (execute l ix).1 c
  ∧ totalWithdrawals l c ≤ totalWithdrawals (execute l ix).1 c.
Proof.
  intros Hl Hc Hun. destruct (execute l ix) as [l' r] eqn:Hex. cbn [fst].
  destruct r as [[]|e]; [|rewrite (execute_Err _ _ _ _ Hex); lia].
  pose proof Hex as Hp. apply execute_Ok in Hp.
  destruct (process_signer _ _ _ Hp) as [s Hs].
  destruct (decide (s = who)) as [->|Hne].
  - pose proof (execute_counter_step _ _ _ _ _ Hl Hc Hs Hex) as Hstep.
    destruct (ix_data ix); lia.
  - assert (account_at l' c = account_at l c) as Hsame.
    { eapply execute_other; [done | | done]. intros s' Hs'. congruence. }
    assert (load_counter l' c = load_counter l c) as Hload
      by (apply load_counter_ext; by rewrite Hsame).
    unfold totalDeposits, totalWithdrawals. rewrite Hload. lia.
Qed.

(** C9. Both counters are [u64] values. The first Deposit of an owner finds
    a counter account created with both fields at zero, and leaves it at
    (1, 0). Every successful Deposit of the owner adds exactly 1 to
    [totalDeposits] and every successful Withdraw exactly 1 to
    [totalWithdrawals], whatever the amount, and over any sequence of
    instructions neither counter ever goes down. *)
Theorem counters_count_calls who c :
  getCounterPDA who = Ok c →
  (∀ l, valid_ledger l →
        (0 ≤ totalDeposits l c ≤ U64_MAX) ∧ (0 ≤ totalWithdrawals l c ≤ U64_MAX))
  ∧ (∀ l ix l1 pa bump,
       owner (account_at l c) = system_program_ID →
       init_if_needed_counter ix who c l = Ok (l1, pa, bump) →
       pa = {| total_deposits := 0; total_withdrawals := 0 |}
       ∧ data (account_at l1 c) = replicate (Z.to_nat COUNTER_SPACE) 0)
  ∧ (∀ l ix l',
       valid_ledger l → ix_accounts ix !! 2%nat = Some who →
       execute l ix = (l', Ok ()) →
       match ix_data ix with
       | IxDeposit _ =>
           totalDeposits l' c = totalDeposits l c + 1
           ∧ totalWithdrawals l' c = totalWithdrawals l c
           ∧ (owner (account_at l c) = system_program_ID →
              totalDeposits l' c = 1 ∧ totalWithdrawals l' c = 0)
       | IxWithdraw _ =>
           totalWithdrawals l' c = totalWithdrawals l c + 1
           ∧ totalDeposits l' c = totalDeposits l c
       end)
  ∧ (∀ l ixs,
       valid_ledger l → Forall (unaliased who c) ixs →
       totalDeposits l c ≤ totalDeposits (execute_all l ixs) c
       ∧ totalWithdrawals l c ≤ totalWithdrawals (execute_all l ixs) c).
Proof.
  intros Hc. split_and!.
  - intros l Hl. by apply totals_range.
  - intros l ix l1 pa bump Hsys Hinit.
    apply init_if_needed_counter_spec in Hinit as (_ & paid & _ & Hready & _).
    destruct Hready as (_ & _ & _ & _ & _ & _ & Hzero & _). by apply Hzero.
  - intros l ix l' Hl Hs Hex.
    pose proof (execute_counter_step _ _ _ _ _ Hl Hc Hs Hex) as Hstep.
    destruct (ix_data ix); [|done]. destruct Hstep as [Hd Hw].
    split_and!; [done..|]. intros Hsys.
    assert (load_counter l c = None) as Hnone.
    { apply load_counter_foreign. rewrite Hsys.
      by intros ?%eq_sym%programID_not_system. }
    rewrite Hd, Hw. unfold totalDeposits, totalWithdrawals. by rewrite Hnone.
  - intros l ixs. revert l. induction ixs as [|ix ixs IH]; intros l Hl Hall.
    + simpl. lia.
    + apply Forall_cons in Hall as [Hix Hall]. cbn [execute_all foldl].
      pose proof (execute_counter_monotone l ix who c Hl Hc Hix) as [? ?].
      destruct (IH (execute l ix).1 (execute_valid _ _ Hl) Hall) as [? ?].
      unfold execute_all in *. lia.
Qed.

(** C10. A successful Deposit leaves [totalWithdrawals] of its owner as it
    was and a successful Withdraw leaves [totalDeposits] as it was; and
    whatever an owner's instruction does, the vault balance and the counter
    of another owner, whose two addresses are not among the three accounts
    of the first, are unchanged. *)
Theorem frame_properties who v c :
  getVaultPDA who = Ok v →
  getCounterPDA who = Ok c →
  (∀ l ix l',
     valid_ledger l → ix_accounts ix !! 2%nat = Some who →
     execute l ix = (l', Ok ()) →
     match ix_data ix with
     | IxDeposit _ => totalWithdrawals l' c = totalWithdrawals l c
     | IxWithdraw _ => totalDeposits l' c = totalDeposits l c
     end)
  ∧ (∀ l ix l' r other v2 c2,
       ix_accounts ix !! 2%nat = Some who →
       getVaultPDA other = Ok v2 →
       getCounterPDA other = Ok c2 →
       v2 ≠ who → v2 ≠ v → v2 ≠ c →
       c2 ≠ who → c2 ≠ v → c2 ≠ c →
       execute l ix = (l', r) →
       getBalance l' v2 = getBalance l v2
       ∧ load_counter l' c2 = load_counter l c2
       ∧ totalDeposits l' c2 = totalDeposits l c2
       ∧ totalWithdrawals l' c2 = totalWithdrawals l c2).
Proof.
  intros Hv Hc. split.
  - intros l ix l' Hl Hs Hex.
    pose proof (execute_counter_step _ _ _ _ _ Hl Hc Hs Hex) as Hstep.
    by destruct (ix_data ix); destruct Hstep.
  - intros l ix l' r other v2 c2 Hs Hv2 Hc2 ? ? ? ? ? ? Hex.
    assert (∀ k, k ≠ who → k ≠ v → k ≠ c → account_at l' k = account_at l k) as Hfr.
    { intros k ? ? ?. eapply execute_frame; [done|].
      intros s Hs'. assert (s = who) as -> by congruence.
      split_and!; [done | congruence | congruence]. }
    assert (load_counter l' c2 = load_counter l c2) as Hload
      by (apply load_counter_ext; by rewrite Hfr).
    unfold getBalance, totalDeposits, totalWithdrawals.
    by rewrite Hfr, Hload.
Qed.

End ProgramLemmas.

(** * More of the program: records, derivation, rejected calls, whole runs *)

Section MoreProperties.
Context `{Substrate}.


(** *** The account image of the counter *)

Lemma try_deserialize_image buf ui :
  Forall is_byte buf →
  length buf = Z.to_nat COUNTER_SPACE →
  try_deserialize buf = Ok ui →
  try_serialize ui = buf.
Proof.
  intros Hb Hlen Hok. unfold try_deserialize in Hok.
  split_if Hok as Hshort. split_if Hok as Hdisc. bool_hyps.
  unfold try_deserialize_unchecked in Hok.
  split_if Hok as Hshort'. split_if Hok as Hbody. simplify_eq.
  unfold try_serialize. cbn [total_deposits total_withdrawals].
  change (Z.to_nat COUNTER_SPACE) with 24%nat in Hlen.
  assert (length (take 8 (drop 8 buf)) = 8%nat) as Hl1
    by (rewrite length_take, length_drop; lia).
  assert (length (take 8 (drop 8 (drop 8 buf))) = 8%nat) as Hl2
    by (rewrite length_take, !length_drop; lia).
  pose proof (to_from_le_bytes (take 8 (drop 8 buf))
                ltac:(by apply Forall_take, Forall_drop)) as E1.
  pose proof (to_from_le_bytes (take 8 (drop 8 (drop 8 buf)))
                ltac:(by apply Forall_take, Forall_drop, Forall_drop)) as E2.
  rewrite Hl1 in E1. rewrite Hl2 in E2. rewrite E1, E2, <- Hdisc.
  rewrite (take_ge (drop 8 (drop 8 buf))) by (rewrite !length_drop; lia).
  by rewrite !take_drop.
Qed.

(** X1. The counter record fills the declared space exactly: its image is
    the 8-byte discriminator and the two counters on 8 bytes each, 24 bytes
    for [space = 16 + 8]. Reading an image back gives the record, whatever
    follows it in the account, and a 24-byte account that loads as a record
    is the image of that record. *)
Theorem counter_record_roundtrip ui rest buf :
  u64_fields ui →
  Forall is_byte buf →
  length buf = Z.to_nat COUNTER_SPACE →
  Z.of_nat (length (try_serialize ui)) = COUNTER_SPACE
  ∧ Forall is_byte (try_serialize ui)
  ∧ try_deserialize (try_serialize ui ++ rest) = Ok ui
  ∧ (∀ ui', try_deserialize buf = Ok ui' → try_serialize ui' = buf ∧ u64_fields ui').
Proof.
  intros Hui Hb Hlen. split_and!.
  - by rewrite try_serialize_length.
  - apply try_serialize_bytes.
  - by apply try_deserialize_serialize.
  - intros ui' Hok. split; [by apply try_deserialize_image|].
    by eapply try_deserialize_range.
Qed.

(** *** Derived addresses *)

Lemma find_off_curve ns who a b :
  findProgramAddressSync [ns; who] programID = Ok (a, b) →
  is_on_curve a = false ∧ length a = 32%nat ∧ Forall is_byte a ∧ 1 ≤ b ≤ 255.
Proof.
  intros Hf. pose proof (find_hash _ _ _ _ Hf) as [-> Hoff].
  apply find_derives in Hf as (Hb & _). cbn [snd] in Hb.
  split_and!; [done | apply sha256_length | apply sha256_bytes | lia..].
Qed.

(** X2. A derived address is never a point of the curve: it is a 32-byte
    hash that the curve test refuses, found with a bump between 1 and 255,
    so that no key pair signs for it. An owner whose key is on the curve is
    therefore never its own vault or counter. *)
Theorem derived_address_off_curve who :
  (∀ a, getVaultPDA who = Ok a →
        is_on_curve a = false ∧ length a = 32%nat ∧ Forall is_byte a)
  ∧ (∀ a, getCounterPDA who = Ok a →
          is_on_curve a = false ∧ length a = 32%nat ∧ Forall is_byte a)
  ∧ (∀ ns a b, findProgramAddressSync [ns; who] programID = Ok (a, b) → 1 ≤ b ≤ 255)
  ∧ (is_on_curve who = true →
     getVaultPDA who ≠ Ok who ∧ getCounterPDA who ≠ Ok who).
Proof.
  split_and!.
  - intros a [b Hf]%getVaultPDA_Ok. apply find_off_curve in Hf. tauto.
  - intros a [b Hf]%getCounterPDA_Ok. apply find_off_curve in Hf. tauto.
  - intros ns a b Hf. apply find_off_curve in Hf. tauto.
  - intros Hon. split.
    + intros [b Hf]%getVaultPDA_Ok. apply find_off_curve in Hf. destruct Hf. congruence.
    + intros [b Hf]%getCounterPDA_Ok. apply find_off_curve in Hf. destruct Hf. congruence.
Qed.

Lemma createProgramAddressSync_short seeds pid :
  existsb seed_too_long seeds = false →
  createProgramAddressSync seeds pid
  = if is_on_curve (sha256 (concat seeds ++ pid ++ PDA_MARKER))
    then Err Error_InvalidSeedsOnCurve
    else Ok (sha256 (concat seeds ++ pid ++ PDA_MARKER)).
Proof. intros Hs. unfold createProgramAddressSync. by rewrite Hs. Qed.

Lemma seeds_short ns who b :
  (length ns ≤ 32)%nat → (length who ≤ 32)%nat →
  existsb seed_too_long ([ns; who] ++ [[b]]) = false.
Proof.
  intros Hns Hwho. cbn. unfold seed_too_long, MAX_SEED_LENGTH.
  rewrite !bool_decide_eq_false_2; [done | simpl; lia | lia | lia].
Qed.

Lemma find_from_fails n ns who :
  (length ns ≤ 32)%nat → (length who ≤ 32)%nat →
  findProgramAddressSync_from n [ns; who] programID = Err Error_NoViableNonce ↔
  ∀ b, 1 ≤ b ≤ Z.of_nat n →
       is_on_curve (sha256 (derivation_message ns who b)) = true.
Proof.
  intros Hns Hwho. induction n as [|n IH].
  - simpl. split; [intros _ b ?; lia | done].
  - cbn [findProgramAddressSync_from].
    rewrite createProgramAddressSync_short by by apply seeds_short.
    change (concat ([ns; who] ++ [[Z.of_nat (S n)]]) ++ programID ++ PDA_MARKER)
      with (derivation_message ns who (Z.of_nat (S n))).
    destruct (is_on_curve (sha256 (derivation_message ns who (Z.of_nat (S n)))))
      eqn:Hon.
    + rewrite IH. split.
      * intros Hall b Hb. destruct (decide (b = Z.of_nat (S n))) as [->|?]; [done|].
        apply Hall. lia.
      * intros Hall b Hb. apply Hall. lia.
    + split; [done|]. intros Hall. rewrite Hall in Hon by lia. done.
Qed.

Lemma find_from_no_type_error n ns who :
  (length ns ≤ 32)%nat → (length who ≤ 32)%nat →
  findProgramAddressSync_from n [ns; who] programID
  ≠ Err TypeError_MaxSeedLengthExceeded.
Proof.
  intros Hns Hwho. induction n as [|n IH]; [done|].
  cbn [findProgramAddressSync_from].
  rewrite createProgramAddressSync_short by by apply seeds_short.
  by destruct (is_on_curve _).
Qed.

(** X3. For a 32-byte key the client's derivation throws in one case only:
    when the hash of every bump from 255 down to 1 is on the curve (bump 0 is
    never tried). It never throws the seed-length [TypeError], and an
    address it returns is the hash of the message of its bump. *)
Theorem derivation_fails_only_without_bump who :
  length who = 32%nat →
  (getVaultPDA who = Err Error_NoViableNonce ↔
   ∀ b, 1 ≤ b ≤ 255 →
        is_on_curve (sha256 (derivation_message (bytes_of_string "vault") who b)) = true)
  ∧ (getCounterPDA who = Err Error_NoViableNonce ↔
     ∀ b, 1 ≤ b ≤ 255 →
          is_on_curve (sha256 (derivation_message (bytes_of_string "counter") who b)) = true)
  ∧ getVaultPDA who ≠ Err TypeError_MaxSeedLengthExceeded
  ∧ getVaultPDA who ≠ Err Error_InvalidSeedsOnCurve
  ∧ getCounterPDA who ≠ Err TypeError_MaxSeedLengthExceeded
  ∧ getCounterPDA who ≠ Err Error_InvalidSeedsOnCurve.
Proof.
  intros Hlen.
  assert (∀ ns, (length ns ≤ 32)%nat →
    findProgramAddressSync [ns; who] programID ≠ Err Error_InvalidSeedsOnCurve) as Hnc.
  { intros ns Hns. unfold findProgramAddressSync. generalize 255%nat.
    intros n. induction n as [|n IH]; [done|].
    cbn [findProgramAddressSync_from].
    rewrite createProgramAddressSync_short by (apply seeds_short; lia).
    by destruct (is_on_curve _). }
  assert (∀ ns e, (length ns ≤ 32)%nat →
    (('(a, _) ← findProgramAddressSync [ns; who] programID; Ok a) = Err e
     ↔ findProgramAddressSync [ns; who] programID = Err e)) as Hbind.
  { intros ns e _. destruct (findProgramAddressSync _ _) as [[a b]|e']; simpl;
      split; intros ?; by simplify_eq. }
  unfold getVaultPDA, getCounterPDA. rewrite !Hbind by (cbn; lia).
  split_and!.
  - apply (find_from_fails 255); cbn; lia.
  - apply (find_from_fails 255); cbn; lia.
  - apply (find_from_no_type_error 255); cbn; lia.
  - apply Hnc. cbn; lia.
  - apply (find_from_no_type_error 255); cbn; lia.
  - apply Hnc. cbn; lia.
Qed.

(** *** Who pays *)

Lemma credit_nonneg k x amount : 0 ≤ amount → 0 ≤ credit k x amount.
Proof. intros. unfold credit. case_decide; lia. Qed.

(** X4. Lamports leave an account only by the hand of a signer: if a
    transaction lowers the balance of an account, it succeeded, its third
    account signed it, and the account is that signer itself for a Deposit
    (which pays the amount and the rent of a new counter) or the vault
    derived from that signer for a Withdraw. *)
Theorem only_signed_debits l ix l' r k :
  execute l ix = (l', r) →
  lamports (account_at l' k) < lamports (account_at l k) →
  r = Ok ()
  ∧ ∃ s, ix_accounts ix !! 2%nat = Some s ∧ s ∈ ix_signers ix
         ∧ match ix_data ix with
           | IxDeposit _ => k = s
           | IxWithdraw _ => getVaultPDA s = Ok k
           end.
Proof.
  intros Hex Hlt. destruct r as [[]|e];
    [|rewrite (execute_Err _ _ _ _ Hex) in Hlt; lia].
  split; [done|]. apply execute_Ok in Hex.
  destruct (ix_data ix) as [amount|amount] eqn:Hd.
  - destruct (process_deposit_spec _ _ _ _ Hd Hex)
      as (v&c&s&rest&bv&bc&paid&Hacc&Ham&Hs&Hfv&Hfc&Hpaid&(Hlam&_)&_).
    exists s. rewrite Hacc. split_and!; [done..|].
    rewrite Hlam in Hlt.
    pose proof (credit_nonneg k c paid Hpaid).
    pose proof (credit_nonneg k v amount (proj1 Ham)).
    destruct (decide (k = s)) as [->|Hne]; [done|].
    rewrite !(credit_other k s) in Hlt by done. lia.
  - destruct (process_withdraw_spec _ _ _ _ Hd Hex)
      as (v&c&s&rest&bv&bc&pa&Hacc&Ham&Hs&Hfv&Hfc&_&_&(Hlam&_)&_).
    exists s. rewrite Hacc. split_and!; [done..|].
    destruct (Hlam k) as [Hk _]. rewrite Hk in Hlt.
    pose proof (credit_nonneg k s amount (proj1 Ham)).
    destruct (decide (k = v)) as [->|Hne]; [exact (find_getVaultPDA _ _ _ Hfv)|].
    rewrite (credit_other k v) in Hlt by done. lia.
Qed.

(** X5. Every transaction keeps the ledger well formed: after any sequence
    of instructions every balance is still a [u64] and every data buffer a
    string of bytes. *)
Theorem ledger_stays_well_formed l ixs k :
  valid_ledger l →
  valid_ledger (execute_all l ixs)
  ∧ (0 ≤ getBalance (execute_all l ixs) k ≤ U64_MAX)
  ∧ Forall is_byte (data (account_at (execute_all l ixs) k)).
Proof.
  intros Hl. pose proof (execute_all_valid l ixs Hl) as Hfin.
  split; [done|]. by apply valid_ledger_at with (k := k) in Hfin as [? ?].
Qed.

Lemma execute_counter_loaded l ix who c :
  valid_ledger l →
  getCounterPDA who = Ok c →
  unaliased who c ix →
  is_Some (load_counter l c) →
  is_Some (load_counter (execute l ix).1 c).
Proof.
  intros Hl Hc Hun Hsome. destruct (execute l ix) as [l' r] eqn:Hex. cbn [fst].
  destruct r as [[]|e]; [|by rewrite (execute_Err _ _ _ _ Hex)].
  pose proof Hex as Hp. apply execute_Ok in Hp.
  destruct (process_signer _ _ _ Hp) as [s Hs].
  destruct (decide (s = who)) as [->|Hne].
  - destruct (ix_data ix) as [amount|amount] eqn:Hd.
    + destruct (process_deposit_spec _ _ _ _ Hd Hp)
        as (v&c'&s&rest&bv&bc&paid&Hacc&_&_&Hfv&_).
      rewrite Hacc in Hs. cbn in Hs. simplify_eq. apply find_getVaultPDA in Hfv.
      assert (ix_accounts ix !! 2%nat = Some who) as Hs' by by rewrite Hacc.
      destruct (deposit_Ok_owner _ _ _ _ _ _ _ Hl Hd Hs' Hfv Hc Hp)
        as (paid' & _ & _ & _ & Hload). rewrite Hload. eauto.
    + destruct (process_withdraw_spec _ _ _ _ Hd Hp)
        as (v&c'&s&rest&bv&bc&pa0&Hacc&_&_&Hfv&_).
      rewrite Hacc in Hs. cbn in Hs. simplify_eq. apply find_getVaultPDA in Hfv.
      assert (ix_accounts ix !! 2%nat = Some who) as Hs' by by rewrite Hacc.
      destruct (withdraw_Ok_owner _ _ _ _ _ _ _ Hl Hd Hs' Hfv Hc Hp)
        as (pa & _ & _ & _ & Hload). rewrite Hload. eauto.
  - assert (account_at l' c = account_at l c) as Hsame.
    { eapply execute_other; [done | | done]. intros s' Hs'. congruence. }
    assert (load_counter l' c = load_counter l c) as ->
      by (apply load_counter_ext; by rewrite Hsame).
    done.
Qed.

Lemma execute_all_cons l ix ixs :
  execute_all l (ix :: ixs) = execute_all (execute l ix).1 ixs.
Proof. reflexivity. Qed.

(** X6. A counter, once it exists, exists for good: no sequence of
    instructions (none of them, signed by somebody else, aliasing the counter
    address) closes it or leaves it in a state in which it does not load. *)
Theorem counter_exists_for_good who c l ixs :
  getCounterPDA who = Ok c →
  valid_ledger l →
  Forall (unaliased who c) ixs →
  is_Some (load_counter l c) →
  is_Some (load_counter (execute_all l ixs) c).
Proof.
  intros Hc. revert l. induction ixs as [|ix ixs IH]; intros l Hl Hall Hsome; [done|].
  apply Forall_cons in Hall as [Hix Hall]. rewrite execute_all_cons.
  apply IH; [by apply execute_valid | exact Hall |].
  by apply execute_counter_loaded with (who := who).
Qed.

(** X7. Without the signature of its third account neither instruction does
    anything: a Deposit is refused with [AccountNotSigner] before any
    account is created or funded, a Withdraw with [AccountNotSigner] when the
    counter it names loads (and by the loader otherwise); the ledger is
    unchanged. *)
Theorem unsigned_call_rejected l ix v c s rest amount :
  ix_accounts ix = v :: c :: s :: rest →
  s ∉ ix_signers ix →
  in_u64 amount = true →
  (ix_data ix = IxDeposit amount → execute l ix = (l, Err AccountNotSigner))
  ∧ (ix_data ix = IxWithdraw amount → is_Some (load_counter l c) →
     execute l ix = (l, Err AccountNotSigner))
  ∧ (∃ e, execute l ix = (l, Err e))
  ∧ classify AccountNotSigner = UnauthorizedSigner.
Proof.
  intros Hacc Hs Ham.
  assert (has_key (ix_signers ix) s = false) as Hkey
    by (unfold has_key; by apply bool_decide_eq_false).
  split_and!; [| | |done].
  - intros Hd. unfold execute, process_instruction. rewrite Hd, Ham. cbn [negb].
    unfold Deposit_try_accounts. rewrite Hacc, Hkey. done.
  - intros Hd [pa Hload]. apply load_counter_Some in Hload.
    unfold execute, process_instruction. rewrite Hd, Ham. cbn [negb].
    unfold Withdraw_try_accounts. rewrite Hacc, Hload. cbn [mbind Result_bind].
    by rewrite Hkey.
  - destruct (process_instruction ix l) as [l'|e] eqn:Hp;
      [exfalso | exists e; unfold execute; by rewrite Hp].
    destruct (ix_data ix) as [a|a] eqn:Hd.
    + destruct (process_deposit_spec _ _ _ _ Hd Hp) as (?&?&s'&?&?&?&?&Hacc'&_&Hs'&_).
      rewrite Hacc in Hacc'. by simplify_eq.
    + destruct (process_withdraw_spec _ _ _ _ Hd Hp) as (?&?&s'&?&?&?&?&Hacc'&_&Hs'&_).
      rewrite Hacc in Hacc'. by simplify_eq.
Qed.

(** *** Deposits that go through *)

Lemma account_at_set_lamports k x l k' :
  account_at (set_lamports k x l) k'
  = if decide (k' = k)
    then {| lamports := x; data := data (account_at l k); owner := owner (account_at l k) |}
    else account_at l k'.
Proof. unfold set_lamports. apply account_at_insert. Qed.

Lemma account_at_set_data k d l k' :
  account_at (set_data k d l) k'
  = if decide (k' = k)
    then {| lamports := lamports (account_at l k); data := d;
            owner := owner (account_at l k) |}
    else account_at l k'.
Proof. unfold set_data. apply account_at_insert. Qed.

Lemma account_at_set_owner k o l k' :
  account_at (set_owner k o l) k'
  = if decide (k' = k)
    then {| lamports := lamports (account_at l k); data := data (account_at l k);
            owner := o |}
    else account_at l k'.
Proof. unfold set_owner. apply account_at_insert. Qed.

Lemma invoke_signed_plain ix cs cw l :
  forallb (has_key cs) (required_signers ix) = true →
  forallb (has_key cw) (required_writable ix) = true →
  invoke_signed ix [] cs cw l = process_system_instruction ix l.
Proof.
  intros Hs Hw. unfold invoke_signed. cbn [derive_signers mbind Result_bind app].
  by rewrite Hs, Hw.
Qed.

Lemma invoke_signed_pda ix seeds pda cs cw l :
  create_program_address seeds programID = Ok pda →
  forallb (has_key (pda :: cs)) (required_signers ix) = true →
  forallb (has_key cw) (required_writable ix) = true →
  invoke_signed ix [seeds] cs cw l = process_system_instruction ix l.
Proof.
  intros Hc Hs Hw. unfold invoke_signed. cbn [derive_signers]. rewrite Hc.
  cbn [mbind Result_bind app]. by rewrite Hs, Hw.
Qed.

(** A Deposit that finds its counter in place is the transfer, the increment
    and the write-back. *)
Lemma deposit_validated l ix amount who v c bv bc pa :
  canonical_call who v c ix →
  ix_data ix = IxDeposit amount →
  in_u64 amount = true →
  findProgramAddressSync [bytes_of_string "vault"; who] programID = Ok (v, bv) →
  findProgramAddressSync [bytes_of_string "counter"; who] programID = Ok (c, bc) →
  Account_try_from (account_at l c) = Ok pa →
  length (data (account_at l c)) = 24%nat →
  minimum_balance COUNTER_SPACE ≤ lamports (account_at l c) →
  process_instruction ix l
  = (l1 ← system_transfer who v amount l;
     total ← add_assign_u64 (total_deposits pa) 1;
     Account_exit c {| total_deposits := total;
                       total_withdrawals := total_withdrawals pa |} l1).
Proof.
  intros (Hacc & Hs & Hwv & Hwc & Hww) Hd Ham Hfv Hfc Hload Hlen Hrent.
  apply find_program_address_client in Hfv, Hfc; [|unfold MAX_SEEDS; simpl; lia..].
  pose proof (Account_try_from_owner _ _ Hload) as Hown.
  unfold process_instruction. rewrite Hd, Ham. cbn [negb].
  unfold Deposit_try_accounts. rewrite Hacc.
  rewrite !has_key_true by done. cbn [negb].
  rewrite bool_decide_eq_true_2 by done. cbn [negb].
  unfold init_if_needed_counter. rewrite Hfc. cbn [mbind Result_bind]. cbn beta iota.
  rewrite (bool_decide_eq_true_2 (c = c)) by done. cbn [negb].
  rewrite Hown. rewrite (bool_decide_eq_false_2 _ programID_not_system).
  rewrite Hload. cbn [mbind Result_bind]. cbn beta iota zeta.
  rewrite Hlen. rewrite (bool_decide_eq_true_2 (Z.of_nat 24 = COUNTER_SPACE)) by done.
  cbn [negb]. rewrite Hown.
  rewrite (bool_decide_eq_true_2 (programID = programID)) by done. cbn [negb].
  rewrite (proj2 (Z.ltb_ge _ _) Hrent). cbn [mbind Result_bind]. cbn beta iota.
  rewrite Hfv. cbn [mbind Result_bind]. cbn beta iota.
  rewrite (bool_decide_eq_true_2 (v = v)) by done. cbn [negb mbind Result_bind].
  cbn beta iota. unfold deposit.
  cbn [accounts caller_signers caller_writable user_vault_account
       user_interactions_counter counter_account signer].
  rewrite invoke_signed_plain; cycle 1.
  { cbn. by rewrite has_key_true. }
  { cbn. by rewrite !has_key_true. }
  cbn [process_system_instruction].
  destruct (system_transfer who v amount l) as [l1|e]; [|done].
  cbn [mbind Result_bind].
  destruct (add_assign_u64 _ _) as [total|e]; done.
Qed.

(** X8. A Deposit into a vault whose counter is in place costs the signer
    the amount and nothing else. With less than the amount in the signer's
    account it fails with the system program's insufficient-funds error and
    changes nothing; otherwise (short of an overflow of the vault balance or
    of the counter) it succeeds: the signer has paid exactly the amount, the
    vault has received it, and [totalDeposits] has gone up by 1. *)
Theorem deposit_into_existing_counter l ix amount who v c :
  canonical_call who v c ix →
  ix_data ix = IxDeposit amount →
  in_u64 amount = true →
  getVaultPDA who = Ok v →
  getCounterPDA who = Ok c →
  valid_ledger l →
  is_Some (load_counter l c) →
  length (data (account_at l c)) = 24%nat →
  minimum_balance COUNTER_SPACE ≤ getBalance l c →
  data (account_at l who) = [] →
  owner (account_at l who) = system_program_ID →
  v ≠ who →
  (getBalance l who < amount →
     execute l ix = (l, Err ResultWithNegativeLamports))
  ∧ (amount ≤ getBalance l who →
     getBalance l v + amount ≤ U64_MAX →
     totalDeposits l c < U64_MAX →
     ∃ l', execute l ix = (l', Ok ())
           ∧ getBalance l' who = getBalance l who - amount
           ∧ getBalance l' v = getBalance l v + amount
           ∧ totalDeposits l' c = totalDeposits l c + 1
           ∧ totalWithdrawals l' c = totalWithdrawals l c).
Proof.
  intros Hcall Hd Ham Hv Hc Hl [pa Hload] Hlen Hrent Hnodata Hsys Hne.
  apply getVaultPDA_Ok in Hv as Hv'. destruct Hv' as [bv Hfv].
  apply getCounterPDA_Ok in Hc as Hc'. destruct Hc' as [bc Hfc].
  apply load_counter_Some in Hload as Hfrom.
  pose proof (deposit_validated l ix amount who v c bv bc pa
                Hcall Hd Ham Hfv Hfc Hfrom Hlen Hrent) as Hrun.
  unfold getBalance in *. split.
  - intros Hlt. unfold execute. rewrite Hrun.
    by rewrite system_transfer_short.
  - intros Hfunds Hmax Htd.
    rewrite system_transfer_funded in Hrun by (done || lia).
    cbn [mbind Result_bind] in Hrun.
    unfold totalDeposits in Htd. rewrite Hload in Htd. cbn in Htd.
    unfold add_assign_u64 in Hrun.
    rewrite (proj2 (Z.leb_le _ _)) in Hrun by lia.
    cbn [mbind Result_bind] in Hrun.
    set (l1 := set_lamports v _ (set_lamports who _ l)) in *.
    rewrite Account_exit_program in Hrun; cycle 1.
    { unfold l1. rewrite !set_lamports_owner. by eapply Account_try_from_owner. }
    { unfold l1. rewrite !set_lamports_data. lia. }
    assert (c ≠ who) as Hcw.
    { intros ->. apply Account_try_from_owner in Hfrom.
      rewrite Hsys in Hfrom. by apply programID_not_system. }
    pose proof (load_counter_range l c pa Hl Hload) as [Hr1 Hr2].
    set (l2 := set_data c _ l1) in *.
    exists l2. split; [unfold execute; by rewrite Hrun|].
    assert (∀ k, lamports (account_at l2 k) = lamports (account_at l1 k)) as Hlam.
    { intros k. unfold l2. rewrite account_at_set_data. by case_decide; simplify_eq. }
    assert (load_counter l2 c
            = Some {| total_deposits := total_deposits pa + 1;
                      total_withdrawals := total_withdrawals pa |}) as Hfinal.
    { apply (load_counter_written _ _ _ (drop 24 (data (account_at l1 c)))).
      - unfold l2. rewrite account_at_set_data, decide_True by done. cbn [owner].
        unfold l1. rewrite !set_lamports_owner. by eapply Account_try_from_owner.
      - unfold l2. by rewrite account_at_set_data, decide_True.
      - split; cbn; lia. }
    split_and!.
    + rewrite Hlam. unfold l1. rewrite !account_at_set_lamports.
      rewrite decide_False by done. by rewrite decide_True.
    + rewrite Hlam. unfold l1. rewrite !account_at_set_lamports.
      by rewrite decide_True.
    + unfold totalDeposits. by rewrite Hload, Hfinal.
    + unfold totalWithdrawals. by rewrite Hload, Hfinal.
Qed.

Lemma allocated_counter_at c l k :
  account_at l c = empty_account →
  account_at (allocated_counter c l) k
  = if decide (k = c) then
      {| lamports := 0; data := replicate (Z.to_nat COUNTER_SPACE) 0;
         owner := programID |}
    else account_at l k.
Proof.
  intros Hempty. unfold allocated_counter.
  rewrite account_at_set_owner. case_decide as Hk; [|].
  - rewrite account_at_set_data, decide_True by done. by rewrite Hempty.
  - by rewrite account_at_set_data, decide_False.
Qed.

Lemma with_new_counter_at who c l k :
  account_at l c = empty_account →
  c ≠ who →
  account_at (with_new_counter who c l) k
  = if decide (k = c) then
      {| lamports := minimum_balance COUNTER_SPACE;
         data := replicate (Z.to_nat COUNTER_SPACE) 0;
         owner := programID |}
    else if decide (k = who) then
      {| lamports := lamports (account_at l who) - minimum_balance COUNTER_SPACE;
         data := data (account_at l who);
         owner := owner (account_at l who) |}
    else account_at l k.
Proof.
  intros Hempty Hne. unfold with_new_counter. cbn zeta.
  rewrite !account_at_set_lamports, !allocated_counter_at by done.
  repeat (case_decide; simplify_eq; cbn [lamports data owner]); done.
Qed.

(** Creating the counter at an address where nothing is yet: the account is
    allocated and assigned, and then the signer pays the rent. *)
Lemma create_counter_fresh ix who c bc l :
  who ∈ ix_signers ix → who ∈ ix_writable ix → c ∈ ix_writable ix →
  create_program_address [bytes_of_string "counter"; who; [bc]] programID = Ok c →
  account_at l c = empty_account →
  create_counter ix who c [bytes_of_string "counter"; who; [bc]] l
  = system_transfer who c (minimum_balance COUNTER_SPACE) (allocated_counter c l).
Proof.
  intros Hs Hww Hwc Hcreate Hempty.
  unfold create_counter. rewrite Hempty. cbn [lamports empty_account].
  change (0 =? 0) with true. cbn iota.
  rewrite (invoke_signed_pda _ _ c) ; [|done| |]; cycle 1.
  { cbn. rewrite (has_key_true (c :: _) who) by (apply elem_of_cons; by right).
    by rewrite (has_key_true (c :: _) c) by (apply elem_of_cons; by left). }
  { cbn. by rewrite !has_key_true. }
  cbn [process_system_instruction]. unfold system_create_account.
  rewrite Hempty. cbn [lamports empty_account]. change (0 <? 0) with false. cbn iota.
  unfold system_allocate. rewrite Hempty. cbn [data owner empty_account].
  rewrite !bool_decide_eq_true_2 by done. cbn [negb orb].
  change (MAX_PERMITTED_DATA_LENGTH <? COUNTER_SPACE) with false. cbn iota.
  cbn [mbind Result_bind].
  unfold system_assign. rewrite account_at_set_data, decide_True by done.
  rewrite Hempty. cbn [owner empty_account].
  rewrite bool_decide_eq_false_2 by (by intros ?%eq_sym%programID_not_system).
  by cbn [mbind Result_bind].
Qed.

(** X9. The first Deposit of a signer whose counter address is still empty
    creates the counter account at the signer's cost. The signer pays the
    rent-exempt minimum of the 24-byte record on top of the amount; with
    less than that in the account the transaction fails with the system
    program's insufficient-funds error and leaves nothing behind, not even
    the counter account. Otherwise (short of an overflow of the vault
    balance) it succeeds: the counter account holds exactly the rent and
    reads (1, 0), the vault has received the amount, and every other account
    is as before. *)
Theorem first_deposit_creates_counter l ix amount who v c :
  canonical_call who v c ix →
  ix_data ix = IxDeposit amount →
  in_u64 amount = true →
  getVaultPDA who = Ok v →
  getCounterPDA who = Ok c →
  account_at l c = empty_account →
  data (account_at l who) = [] →
  owner (account_at l who) = system_program_ID →
  v ≠ who → c ≠ who → v ≠ c →
  (getBalance l who < minimum_balance COUNTER_SPACE + amount →
     execute l ix = (l, Err ResultWithNegativeLamports))
  ∧ (minimum_balance COUNTER_SPACE + amount ≤ getBalance l who →
     getBalance l v + amount ≤ U64_MAX →
     ∃ l', execute l ix = (l', Ok ())
           ∧ getBalance l' who
             = getBalance l who - minimum_balance COUNTER_SPACE - amount
           ∧ getBalance l' v = getBalance l v + amount
           ∧ getBalance l' c = minimum_balance COUNTER_SPACE
           ∧ load_counter l' c
             = Some {| total_deposits := 1; total_withdrawals := 0 |}
           ∧ ∀ k, k ≠ who → k ≠ v → k ≠ c → account_at l' k = account_at l k).
Proof.
  intros (Hacc & Hs & Hwv & Hwc & Hww) Hd Ham Hv Hc Hempty Hnodata Hsys Hvw Hcw Hvc.
  apply getVaultPDA_Ok in Hv as Hv'. destruct Hv' as [bv Hfv].
  apply getCounterPDA_Ok in Hc as Hc'. destruct Hc' as [bc Hfc].
  apply find_program_address_client in Hfv, Hfc; [|unfold MAX_SEEDS; simpl; lia..].
  assert (create_program_address [bytes_of_string "counter"; who; [bc]] programID
          = Ok c) as Hcreate.
  { apply (find_program_address_create [bytes_of_string "counter"; who] c bc);
      [unfold MAX_SEEDS; simpl; lia | exact Hfc]. }
  pose proof (minimum_balance_u64 COUNTER_SPACE) as Hrent.
  pose proof (proj1 (in_u64_spec amount) Ham) as Hamount.
  assert (∀ e, system_transfer who c (minimum_balance COUNTER_SPACE)
                 (allocated_counter c l) = Err e →
               process_instruction ix l = Err e) as Hfail.
  { intros e Hpay.
    unfold process_instruction. rewrite Hd, Ham. cbn [negb].
    unfold Deposit_try_accounts. rewrite Hacc.
    rewrite !has_key_true by done. cbn [negb].
    rewrite bool_decide_eq_true_2 by done. cbn [negb].
    unfold init_if_needed_counter. rewrite Hfc. cbn [mbind Result_bind]. cbn beta iota.
    rewrite (bool_decide_eq_true_2 (c = c)) by done. cbn [negb].
    rewrite Hempty. cbn [owner empty_account].
    rewrite (bool_decide_eq_true_2 (system_program_ID = system_program_ID)) by done.
    rewrite (create_counter_fresh ix who c bc l Hs Hww Hwc Hcreate Hempty), Hpay.
    done. }
  assert (system_transfer who c (minimum_balance COUNTER_SPACE)
            (allocated_counter c l) = Ok (with_new_counter who c l) →
          process_instruction ix l
          = (l2 ← system_transfer who v amount (with_new_counter who c l);
             Account_exit c {| total_deposits := 1; total_withdrawals := 0 |} l2))
    as Hgo.
  { intros Hpay.
    unfold process_instruction. rewrite Hd, Ham. cbn [negb].
    unfold Deposit_try_accounts. rewrite Hacc.
    rewrite !has_key_true by done. cbn [negb].
    rewrite bool_decide_eq_true_2 by done. cbn [negb].
    unfold init_if_needed_counter. rewrite Hfc. cbn [mbind Result_bind]. cbn beta iota.
    rewrite (bool_decide_eq_true_2 (c = c)) by done. cbn [negb].
    rewrite Hempty. cbn [owner empty_account].
    rewrite (bool_decide_eq_true_2 (system_program_ID = system_program_ID)) by done.
    rewrite (create_counter_fresh ix who c bc l Hs Hww Hwc Hcreate Hempty), Hpay.
    cbn [mbind Result_bind].
    rewrite (with_new_counter_at who c l c Hempty Hcw), decide_True by done.
    unfold Account_try_from_unchecked. cbn [lamports data owner].
    rewrite (bool_decide_eq_false_2 _ programID_not_system). cbn [andb].
    rewrite (bool_decide_eq_true_2 (programID = programID)) by done. cbn [negb].
    rewrite try_deserialize_unchecked_zeros. cbn [mbind Result_bind]. cbn beta iota zeta.
    rewrite (with_new_counter_at who c l c Hempty Hcw), decide_True by done.
    cbn [lamports data owner].
    rewrite length_replicate.
    rewrite (bool_decide_eq_true_2 (Z.of_nat (Z.to_nat COUNTER_SPACE) = COUNTER_SPACE))
      by done.
    rewrite (bool_decide_eq_true_2 (programID = programID)) by done. cbn [negb].
    rewrite Z.ltb_irrefl. cbn [mbind Result_bind]. cbn beta iota.
    rewrite Hfv. cbn [mbind Result_bind]. cbn beta iota.
    rewrite (bool_decide_eq_true_2 (v = v)) by done. cbn [negb mbind Result_bind].
    cbn beta iota. unfold deposit.
    cbn [accounts caller_signers caller_writable user_vault_account
         user_interactions_counter counter_account signer total_deposits
         total_withdrawals].
    rewrite invoke_signed_plain; cycle 1.
    { cbn. by rewrite has_key_true. }
    { cbn. by rewrite !has_key_true. }
    cbn [process_system_instruction].
    destruct (system_transfer who v amount _) as [l2|e]; [|done].
    cbn [mbind Result_bind]. unfold add_assign_u64.
    change (0 + 1 <=? U64_MAX) with true. by cbn [mbind Result_bind]. }
  assert (account_at (allocated_counter c l) who = account_at l who) as Hbw.
  { by rewrite allocated_counter_at, decide_False by congruence. }
  assert (account_at (allocated_counter c l) c
          = {| lamports := 0; data := replicate (Z.to_nat COUNTER_SPACE) 0;
               owner := programID |}) as Hbc.
  { by rewrite allocated_counter_at, decide_True. }
  assert (minimum_balance COUNTER_SPACE ≤ lamports (account_at l who) →
          system_transfer who c (minimum_balance COUNTER_SPACE)
            (allocated_counter c l) = Ok (with_new_counter who c l)) as Hpaid.
  { intros Hle. rewrite system_transfer_funded;
      [done|by rewrite Hbw|by rewrite Hbw|rewrite Hbw; lia|congruence
      |rewrite Hbc; cbn; lia]. }
  unfold getBalance. split.
  - intros Hlt. unfold execute.
    destruct (decide (lamports (account_at l who) < minimum_balance COUNTER_SPACE))
      as [Hshort|Hle].
    { rewrite (Hfail ResultWithNegativeLamports); [done|].
      rewrite system_transfer_short; [done | by rewrite Hbw | by rewrite Hbw]. }
    rewrite Hgo by (apply Hpaid; lia).
    rewrite system_transfer_short; [done | |].
    + by rewrite with_new_counter_at, decide_False, decide_True by congruence.
    + rewrite with_new_counter_at, decide_False, decide_True by congruence.
      cbn [lamports]. lia.
  - intros Hfunds Hmax.
    pose proof (Hgo (Hpaid ltac:(lia))) as Hrun.
    set (lc := with_new_counter who c l) in *.
    assert (account_at lc who
            = {| lamports := lamports (account_at l who) - minimum_balance COUNTER_SPACE;
                 data := data (account_at l who);
                 owner := owner (account_at l who) |}) as Hlw.
    { unfold lc. by rewrite with_new_counter_at, decide_False, decide_True by congruence. }
    assert (account_at lc v = account_at l v) as Hlv.
    { unfold lc. by rewrite with_new_counter_at, !decide_False by congruence. }
    assert (account_at lc c
            = {| lamports := minimum_balance COUNTER_SPACE;
                 data := replicate (Z.to_nat COUNTER_SPACE) 0;
                 owner := programID |}) as Hlc.
    { unfold lc. by rewrite with_new_counter_at, decide_True. }
    rewrite system_transfer_funded in Hrun;
      [|by rewrite Hlw|by rewrite Hlw|rewrite Hlw; cbn [lamports]; lia|congruence
       |rewrite Hlv; lia].
    cbn [mbind Result_bind] in Hrun.
    set (l1 := set_lamports v _ (set_lamports who _ lc)) in *.
    assert (∀ k, account_at l1 k
                 = if decide (k = v) then
                     {| lamports := lamports (account_at l v) + amount;
                        data := data (account_at l v);
                        owner := owner (account_at l v) |}
                   else if decide (k = who) then
                     {| lamports := lamports (account_at l who)
                                    - minimum_balance COUNTER_SPACE - amount;
                        data := data (account_at l who);
                        owner := owner (account_at l who) |}
                   else account_at lc k) as Hl1.
    { intros k. unfold l1. rewrite !account_at_set_lamports.
      rewrite (decide_False (P := v = who)) by done.
      rewrite Hlw, Hlv. cbn [lamports data owner].
      by repeat case_decide. }
    rewrite Account_exit_program in Hrun; cycle 1.
    { by rewrite Hl1, !decide_False, Hlc by congruence. }
    { rewrite Hl1, !decide_False, Hlc by congruence. cbn [data].
      rewrite length_replicate. by vm_compute. }
    set (l2 := set_data c _ l1) in *.
    exists l2. split; [unfold execute; by rewrite Hrun|].
    assert (∀ k, k ≠ c → account_at l2 k = account_at l1 k) as Hother.
    { intros k Hk. unfold l2. by rewrite account_at_set_data, decide_False. }
    split_and!.
    + rewrite Hother, Hl1 by congruence.
      by rewrite decide_False, decide_True by congruence.
    + rewrite Hother, Hl1 by congruence. by rewrite decide_True.
    + unfold l2. rewrite account_at_set_data, decide_True by done. cbn [lamports].
      by rewrite Hl1, !decide_False, Hlc by congruence.
    + apply (load_counter_written _ _ _ (drop 24 (data (account_at l1 c)))).
      * unfold l2. rewrite account_at_set_data, decide_True by done. cbn [owner].
        by rewrite Hl1, !decide_False, Hlc by congruence.
      * unfold l2. by rewrite account_at_set_data, decide_True.
      * split; cbn; unfold U64_MAX; lia.
    + intros k Hkw Hkv Hkc. rewrite Hother, Hl1 by done.
      rewrite !decide_False by done. unfold lc.
      by rewrite with_new_counter_at, !decide_False by congruence.
Qed.

(** The ledger after a Deposit that finds its counter in place, and after a
    Withdraw, account by account. *)
Lemma deposit_runs l ix amount who v c pa :
  canonical_call who v c ix →
  ix_data ix = IxDeposit amount →
  in_u64 amount = true →
  getVaultPDA who = Ok v →
  getCounterPDA who = Ok c →
  load_counter l c = Some pa →
  length (data (account_at l c)) = 24%nat →
  minimum_balance COUNTER_SPACE ≤ lamports (account_at l c) →
  data (account_at l who) = [] →
  owner (account_at l who) = system_program_ID →
  v ≠ who → v ≠ c →
  amount ≤ lamports (account_at l who) →
  lamports (account_at l v) + amount ≤ U64_MAX →
  total_deposits pa < U64_MAX →
  ∃ l', process_instruction ix l = Ok l'
        ∧ ∀ k, account_at l' k
               = if decide (k = c) then
                   {| lamports := lamports (account_at l c);
                      data := try_serialize
                                {| total_deposits := total_deposits pa + 1;
                                   total_withdrawals := total_withdrawals pa |};
                      owner := programID |}
                 else if decide (k = v) then
                   {| lamports := lamports (account_at l v) + amount;
                      data := data (account_at l v);
                      owner := owner (account_at l v) |}
                 else if decide (k = who) then
                   {| lamports := lamports (account_at l who) - amount;
                      data := []; owner := system_program_ID |}
                 else account_at l k.
Proof.
  intros Hcall Hd Ham Hv Hc Hload Hlen Hrent Hnodata Hsys Hvw Hvc Hfunds Hmax Htd.
  apply getVaultPDA_Ok in Hv as Hv'. destruct Hv' as [bv Hfv].
  apply getCounterPDA_Ok in Hc as Hc'. destruct Hc' as [bc Hfc].
  apply load_counter_Some in Hload as Hfrom.
  pose proof (Account_try_from_owner _ _ Hfrom) as Hown.
  pose proof (deposit_validated l ix amount who v c bv bc pa
                Hcall Hd Ham Hfv Hfc Hfrom Hlen Hrent) as Hrun.
  assert (c ≠ who) as Hcw.
  { intros ->. rewrite Hsys in Hown. by apply programID_not_system. }
  rewrite system_transfer_funded in Hrun by (done || lia).
  cbn [mbind Result_bind] in Hrun.
  unfold add_assign_u64 in Hrun.
  rewrite (proj2 (Z.leb_le _ _)) in Hrun by lia.
  cbn [mbind Result_bind] in Hrun.
  set (l1 := set_lamports v _ (set_lamports who _ l)) in *.
  rewrite Account_exit_program in Hrun; cycle 1.
  { unfold l1. by rewrite !set_lamports_owner. }
  { unfold l1. rewrite !set_lamports_data. lia. }
  eexists. split; [exact Hrun|]. intros k.
  rewrite account_at_set_data. unfold l1.
  rewrite !set_lamports_data, !set_lamports_owner, !account_at_set_lamports.
  rewrite (decide_False (P := c = v)), (decide_False (P := c = who)) by done.
  rewrite (decide_False (P := v = who)) by done.
  rewrite drop_ge, app_nil_r by lia. rewrite Hown, Hnodata, Hsys.
  by repeat case_decide.
Qed.

Lemma withdraw_runs l ix amount who v c pa :
  canonical_call who v c ix →
  ix_data ix = IxWithdraw amount →
  in_u64 amount = true →
  getVaultPDA who = Ok v →
  getCounterPDA who = Ok c →
  load_counter l c = Some pa →
  data (account_at l v) = [] →
  owner (account_at l v) = system_program_ID →
  v ≠ who → c ≠ who →
  amount ≤ lamports (account_at l v) →
  lamports (account_at l who) + amount ≤ U64_MAX →
  total_withdrawals pa < U64_MAX →
  ∃ l', process_instruction ix l = Ok l'
        ∧ ∀ k, account_at l' k
               = if decide (k = c) then
                   {| lamports := lamports (account_at l c);
                      data := try_serialize
                                {| total_deposits := total_deposits pa;
                                   total_withdrawals := total_withdrawals pa + 1 |}
                              ++ drop 24 (data (account_at l c));
                      owner := programID |}
                 else if decide (k = who) then
                   {| lamports := lamports (account_at l who) + amount;
                      data := data (account_at l who);
                      owner := owner (account_at l who) |}
                 else if decide (k = v) then
                   {| lamports := lamports (account_at l v) - amount;
                      data := []; owner := system_program_ID |}
                 else account_at l k.
Proof.
  intros Hcall Hd Ham Hv Hc Hload Hnodata Hsys Hvw Hcw Hfunds Hmax Htw.
  apply getVaultPDA_Ok in Hv as Hv'. destruct Hv' as [bv Hfv].
  apply getCounterPDA_Ok in Hc as Hc'. destruct Hc' as [bc Hfc].
  apply load_counter_Some in Hload as Hfrom.
  pose proof (Account_try_from_owner _ _ Hfrom) as Hown.
  pose proof (Account_try_from_length _ _ Hfrom) as Hlen.
  pose proof (withdraw_validated l ix amount who v c bv bc pa
                Hcall Hd Ham Hfv Hfc Hfrom) as Hrun.
  assert (c ≠ v) as Hcv.
  { intros ->. rewrite Hsys in Hown. by apply programID_not_system. }
  rewrite system_transfer_funded in Hrun by (done || lia).
  cbn [mbind Result_bind] in Hrun.
  unfold add_assign_u64 in Hrun.
  rewrite (proj2 (Z.leb_le _ _)) in Hrun by lia.
  cbn [mbind Result_bind] in Hrun.
  set (l1 := set_lamports who _ (set_lamports v _ l)) in *.
  rewrite Account_exit_program in Hrun; cycle 1.
  { unfold l1. by rewrite !set_lamports_owner. }
  { unfold l1. by rewrite !set_lamports_data. }
  eexists. split; [exact Hrun|]. intros k.
  rewrite account_at_set_data. unfold l1.
  rewrite !set_lamports_data, !set_lamports_owner, !account_at_set_lamports.
  rewrite (decide_False (P := c = v)), (decide_False (P := c = who)) by done.
  rewrite (decide_False (P := who = v)) by done.
  rewrite Hown, Hnodata, Hsys.
  by repeat case_decide.
Qed.

(** X10. A Withdraw of any amount up to the vault's balance goes through
    once the counter exists (short of an overflow of the signer's balance or
    of the counter): the vault pays the signer exactly the amount, the
    counter of withdrawals goes up by 1 and that of deposits stays, the
    vault remains a plain account of the system program, and every other
    account is as before. *)
Theorem withdraw_within_balance_succeeds l ix amount who v c :
  canonical_call who v c ix →
  ix_data ix = IxWithdraw amount →
  in_u64 amount = true →
  getVaultPDA who = Ok v →
  getCounterPDA who = Ok c →
  valid_ledger l →
  is_Some (load_counter l c) →
  data (account_at l v) = [] →
  owner (account_at l v) = system_program_ID →
  v ≠ who → c ≠ who →
  amount ≤ getBalance l v →
  getBalance l who + amount ≤ U64_MAX →
  totalWithdrawals l c < U64_MAX →
  ∃ l', execute l ix = (l', Ok ())
        ∧ getBalance l' v = getBalance l v - amount
        ∧ getBalance l' who = getBalance l who + amount
        ∧ getBalance l' c = getBalance l c
        ∧ totalWithdrawals l' c = totalWithdrawals l c + 1
        ∧ totalDeposits l' c = totalDeposits l c
        ∧ data (account_at l' v) = []
        ∧ owner (account_at l' v) = system_program_ID
        ∧ ∀ k, k ≠ who → k ≠ v → k ≠ c → account_at l' k = account_at l k.
Proof.
  intros Hcall Hd Ham Hv Hc Hl [pa Hload] Hnodata Hsys Hvw Hcw Hfunds Hmax Htw.
  unfold getBalance in *.
  unfold totalWithdrawals in Htw. rewrite Hload in Htw. cbn in Htw.
  destruct (withdraw_runs l ix amount who v c pa) as (l' & Hrun & Hat); try done.
  assert (c ≠ v) as Hcv.
  { intros ->. apply load_counter_Some, Account_try_from_owner in Hload.
    rewrite Hsys in Hload. by apply programID_not_system. }
  pose proof (load_counter_range l c pa Hl Hload) as [Hr1 Hr2].
  assert (load_counter l' c
          = Some {| total_deposits := total_deposits pa;
                    total_withdrawals := total_withdrawals pa + 1 |}) as Hfinal.
  { apply (load_counter_written _ _ _ (drop 24 (data (account_at l c)))).
    - by rewrite Hat, decide_True.
    - by rewrite Hat, decide_True.
    - split; cbn; lia. }
  exists l'. split; [unfold execute; by rewrite Hrun|].
  split_and!.
  - by rewrite Hat, decide_False, decide_False, decide_True by congruence.
  - by rewrite Hat, decide_False, decide_True by congruence.
  - by rewrite Hat, decide_True.
  - unfold totalWithdrawals. by rewrite Hload, Hfinal.
  - unfold totalDeposits. by rewrite Hload, Hfinal.
  - by rewrite Hat, decide_False, decide_False, decide_True by congruence.
  - by rewrite Hat, decide_False, decide_False, decide_True by congruence.
  - intros k ? ? ?. by rewrite Hat, !decide_False.
Qed.

(** X11. A Deposit followed by a Withdraw of the same amount, both of the
    same signer with the counter in place, both go through, and all they
    leave behind is the count: signer and vault hold what they held, every
    account other than the counter is as it was, and the counter has gone
    from (d, w) to (d + 1, w + 1). *)
Theorem deposit_then_withdraw_restores l ixd ixw amount who v c :
  canonical_call who v c ixd →
  canonical_call who v c ixw →
  ix_data ixd = IxDeposit amount →
  ix_data ixw = IxWithdraw amount →
  in_u64 amount = true →
  getVaultPDA who = Ok v →
  getCounterPDA who = Ok c →
  valid_ledger l →
  is_Some (load_counter l c) →
  length (data (account_at l c)) = 24%nat →
  minimum_balance COUNTER_SPACE ≤ getBalance l c →
  data (account_at l who) = [] →
  owner (account_at l who) = system_program_ID →
  data (account_at l v) = [] →
  owner (account_at l v) = system_program_ID →
  v ≠ who →
  amount ≤ getBalance l who →
  getBalance l v + amount ≤ U64_MAX →
  totalDeposits l c < U64_MAX →
  totalWithdrawals l c < U64_MAX →
  ∃ l1 l2, execute l ixd = (l1, Ok ())
           ∧ execute l1 ixw = (l2, Ok ())
           ∧ execute_all l [ixd; ixw] = l2
           ∧ totalDeposits l2 c = totalDeposits l c + 1
           ∧ totalWithdrawals l2 c = totalWithdrawals l c + 1
           ∧ ∀ k, k ≠ c → account_at l2 k = account_at l k.
Proof.
  intros Hcd Hcw Hdd Hdw Ham Hv Hc Hl [pa Hload] Hlen Hrent Hwd Hwo Hvd Hvo Hvw
    Hfunds Hmax Htd Htw.
  unfold getBalance in *.
  unfold totalDeposits in Htd. rewrite Hload in Htd. cbn in Htd.
  unfold totalWithdrawals in Htw. rewrite Hload in Htw. cbn in Htw.
  pose proof (proj1 (in_u64_spec amount) Ham) as Hamount.
  pose proof (load_counter_range l c pa Hl Hload) as [Hr1 Hr2].
  pose proof (proj1 (valid_ledger_at l) Hl who) as [Hwl _].
  pose proof (proj1 (valid_ledger_at l) Hl v) as [Hvl _].
  assert (owner (account_at l c) = programID) as Hown.
  { by apply load_counter_Some, Account_try_from_owner in Hload. }
  assert (v ≠ c) as Hvc.
  { intros ->. rewrite Hvo in Hown. by apply programID_not_system. }
  assert (c ≠ who) as Hcwho.
  { intros ->. rewrite Hwo in Hown. by apply programID_not_system. }
  destruct (deposit_runs l ixd amount who v c pa) as (l1 & Hrun1 & Hat1); try done.
  assert (load_counter l1 c
          = Some {| total_deposits := total_deposits pa + 1;
                    total_withdrawals := total_withdrawals pa |}) as Hload1.
  { apply (load_counter_written _ _ _ []).
    - by rewrite Hat1, decide_True.
    - by rewrite Hat1, decide_True, app_nil_r.
    - split; cbn; lia. }
  destruct (withdraw_runs l1 ixw amount who v c _ Hcw Hdw Ham Hv Hc Hload1)
    as (l2 & Hrun2 & Hat2); try done.
  { by rewrite Hat1, decide_False, decide_True, Hvd by done. }
  { by rewrite Hat1, decide_False, decide_True by done. }
  { rewrite Hat1, decide_False, decide_True by done. cbn [lamports]. lia. }
  { rewrite Hat1, decide_False, decide_False, decide_True by congruence.
    cbn [lamports]. lia. }
  assert (load_counter l2 c
          = Some {| total_deposits := total_deposits pa + 1;
                    total_withdrawals := total_withdrawals pa + 1 |}) as Hload2.
  { apply (load_counter_written _ _ _ (drop 24 (data (account_at l1 c)))).
    - by rewrite Hat2, decide_True.
    - by rewrite Hat2, decide_True.
    - split; cbn; lia. }
  exists l1, l2.
  assert (execute l ixd = (l1, Ok ())) as He1 by (unfold execute; by rewrite Hrun1).
  assert (execute l1 ixw = (l2, Ok ())) as He2 by (unfold execute; by rewrite Hrun2).
  split_and!; [exact He1 | exact He2 | | | |].
  - rewrite execute_all_cons, He1. cbn [fst]. rewrite execute_all_cons, He2. done.
  - unfold totalDeposits. by rewrite Hload, Hload2.
  - unfold totalWithdrawals. by rewrite Hload, Hload2.
  - intros k Hk. rewrite Hat2, decide_False by done.
    rewrite !Hat1. rewrite (decide_False (P := who = c)) by done.
    rewrite (decide_False (P := who = v)), (decide_True (P := who = who)) by done.
    rewrite (decide_False (P := v = c)), (decide_True (P := v = v)) by done.
    cbn [lamports data owner].
    destruct (decide (k = who)) as [->|Hkw].
    { apply account_eq; cbn [lamports data owner]; [lia|done|done]. }
    destruct (decide (k = v)) as [->|Hkv].
    { apply account_eq; cbn [lamports data owner]; [lia|done|done]. }
    by rewrite decide_False by done.
Qed.

Lemma supply_credit (f g : list Z → Z) to amount ks :
  NoDup ks → to ∈ ks →
  (∀ k, g k = f k + credit k to amount) →
  foldr (λ k acc, g k + acc) 0 ks = foldr (λ k acc, f k + acc) 0 ks + amount.
Proof.
  intros Hnd Hin Hg.
  assert (∀ ks, to ∉ ks →
            foldr (λ k acc, g k + acc) 0 ks = foldr (λ k acc, f k + acc) 0 ks) as Hout.
  { clear Hnd Hin ks. induction ks as [|k ks IH]; intros Hnot; [done|].
    apply not_elem_of_cons in Hnot as [Hne Hnot]. cbn [foldr].
    rewrite IH, Hg, credit_other by done. lia. }
  induction Hnd as [|k ks Hk Hnd IH]; [by apply elem_of_nil in Hin|].
  cbn [foldr]. apply elem_of_cons in Hin as [<-|Hin].
  - rewrite Hout, Hg, credit_same by done. lia.
  - rewrite IH, Hg, credit_other by (done || by intros ->). lia.
Qed.

Lemma supply_moved l l' from to amount ks :
  NoDup ks → from ∈ ks → to ∈ ks →
  (∀ k, lamports (account_at l' k)
        = lamports (account_at l k) + credit k to amount - credit k from amount) →
  supply l' ks = supply l ks.
Proof.
  intros Hnd Hfrom Hto Hlam. unfold supply, getBalance.
  pose proof (supply_credit
                (λ k, lamports (account_at l k))
                (λ k, lamports (account_at l k) + credit k to amount)
                to amount ks Hnd Hto (λ k, eq_refl)) as H1.
  pose proof (supply_credit
                (λ k, lamports (account_at l' k))
                (λ k, lamports (account_at l k) + credit k to amount)
                from amount ks Hnd Hfrom) as H2.
  cbn beta in H1, H2. rewrite H2 in H1; [lia|].
  intros k. rewrite Hlam. lia.
Qed.

Lemma execute_supply l ix l' r ks :
  execute l ix = (l', r) →
  NoDup ks →
  (∀ s v c, ix_accounts ix !! 2%nat = Some s →
            getVaultPDA s = Ok v → getCounterPDA s = Ok c →
            s ∈ ks ∧ v ∈ ks ∧ c ∈ ks) →
  supply l' ks = supply l ks.
Proof.
  intros Hex Hnd Hin. destruct r as [[]|e]; [|by rewrite (execute_Err _ _ _ _ Hex)].
  apply execute_Ok in Hex.
  destruct (ix_data ix) as [amount|amount] eqn:Hd.
  - destruct (process_deposit_spec _ _ _ _ Hd Hex)
      as (v&c&s&rest&bv&bc&paid&Hacc&_&_&Hfv&Hfc&_&Heff&_).
    apply find_getVaultPDA in Hfv. apply find_getCounterPDA in Hfc.
    rewrite Hacc in Hin. destruct (Hin s v c eq_refl Hfv Hfc) as (Hs & Hv & Hc).
    destruct Heff as (Hlam & _).
    pose (mid := (λ k, lamports (account_at l k) + credit k c paid - credit k s paid)).
    transitivity (foldr (λ k acc, mid k + acc) 0 ks).
    + unfold supply, getBalance.
      pose proof (supply_credit mid (λ k, mid k + credit k v amount)
                    v amount ks Hnd Hv (λ k, eq_refl)) as H1.
      pose proof (supply_credit (λ k, lamports (account_at l' k))
                    (λ k, mid k + credit k v amount) s amount ks Hnd Hs) as H2.
      cbn beta in H1, H2. rewrite H2 in H1; [lia|].
      intros k. rewrite Hlam. unfold mid. lia.
    + unfold supply, getBalance.
      pose proof (supply_credit (λ k, lamports (account_at l k))
                    (λ k, lamports (account_at l k) + credit k c paid)
                    c paid ks Hnd Hc (λ k, eq_refl)) as H1.
      pose proof (supply_credit mid
                    (λ k, lamports (account_at l k) + credit k c paid)
                    s paid ks Hnd Hs) as H2.
      cbn beta in H1, H2. rewrite H2 in H1; [lia|].
      intros k. unfold mid. lia.
  - destruct (process_withdraw_spec _ _ _ _ Hd Hex)
      as (v&c&s&rest&bv&bc&pa&Hacc&_&_&Hfv&Hfc&_&_&Heff&_).
    apply find_getVaultPDA in Hfv. apply find_getCounterPDA in Hfc.
    rewrite Hacc in Hin. destruct (Hin s v c eq_refl Hfv Hfc) as (Hs & Hv & Hc).
    destruct Heff as (Hlam & _).
    apply (supply_moved l l' v s amount ks Hnd Hv Hs).
    intros k. by destruct (Hlam k) as [-> _].
Qed.

(** X12. No sequence of instructions creates or destroys lamports: over any
    list of distinct accounts that holds the signer of every instruction
    together with the vault and the counter derived from that signer, the sum
    of the balances is the same afterwards. What leaves one of the three
    accounts of an instruction arrives in another of the three. *)
Theorem lamports_are_conserved l ixs ks :
  NoDup ks →
  Forall (λ ix, ∀ s v c, ix_accounts ix !! 2%nat = Some s →
                         getVaultPDA s = Ok v → getCounterPDA s = Ok c →
                         s ∈ ks ∧ v ∈ ks ∧ c ∈ ks) ixs →
  supply (execute_all l ixs) ks = supply l ks.
Proof.
  intros Hnd. revert l. induction ixs as [|ix ixs IH]; intros l Hall; [done|].
  apply Forall_cons in Hall as [Hix Hall]. rewrite execute_all_cons.
  rewrite IH by done.
  destruct (execute l ix) as [l' r] eqn:Hex. cbn [fst].
  exact (execute_supply l ix l' r ks Hex Hnd Hix).
Qed.

(** X13. The program writes data into one account only, the counter of the
    signer, and assigns no other account: whatever an instruction does, every
    account that is not the counter derived from its signer (the vault and
    the signer's own account among them) keeps its owner and its data: of
    these accounts the lamports are all that can move. *)
Theorem only_the_counter_is_written l ix l' r k :
  execute l ix = (l', r) →
  (∀ s, ix_accounts ix !! 2%nat = Some s → getCounterPDA s ≠ Ok k) →
  owner (account_at l' k) = owner (account_at l k)
  ∧ data (account_at l' k) = data (account_at l k).
Proof.
  intros Hex Hfar. destruct r as [[]|e]; [|by rewrite (execute_Err _ _ _ _ Hex)].
  apply execute_Ok in Hex.
  destruct (ix_data ix) as [amount|amount] eqn:Hd.
  - destruct (process_deposit_spec _ _ _ _ Hd Hex)
      as (v&c&s&rest&bv&bc&paid&Hacc&_&_&_&Hfc&_&Heff&_).
    apply find_getCounterPDA in Hfc. rewrite Hacc in Hfar.
    assert (k ≠ c) as Hk by (intros ->; by apply (Hfar s)).
    destruct Heff as (_ & Hrest & _). exact (Hrest k Hk).
  - destruct (process_withdraw_spec _ _ _ _ Hd Hex)
      as (v&c&s&rest&bv&bc&pa&Hacc&_&_&_&Hfc&_&_&Heff&_).
    apply find_getCounterPDA in Hfc. rewrite Hacc in Hfar.
    assert (k ≠ c) as Hk by (intros ->; by apply (Hfar s)).
    destruct Heff as (Hlam & Hrest & _). split; [by destruct (Hlam k)|].
    exact (Hrest k Hk).
Qed.

Lemma execute_counter_balance l ix who v c :
  getVaultPDA who = Ok v →
  getCounterPDA who = Ok c →
  v ≠ c → c ≠ who →
  unaliased who c ix →
  is_Some (load_counter l c) →
  getBalance (execute l ix).1 c = getBalance l c.
Proof.
  intros Hv Hc Hvc Hcw Hun [pa Hload].
  destruct (execute l ix) as [l' r] eqn:Hex. cbn [fst].
  destruct r as [[]|e]; [|by rewrite (execute_Err _ _ _ _ Hex)].
  pose proof Hex as Hp. apply execute_Ok in Hp.
  destruct (process_signer _ _ _ Hp) as [s Hs].
  unfold getBalance.
  destruct (decide (s = who)) as [->|Hne].
  - destruct (ix_data ix) as [amount|amount] eqn:Hd.
    + destruct (process_deposit_spec _ _ _ _ Hd Hp)
        as (v'&c'&s&rest&bv&bc&paid&Hacc&_&_&Hfv&Hfc&_&Heff&_).
      apply find_getVaultPDA in Hfv. apply find_getCounterPDA in Hfc.
      rewrite Hacc in Hs. assert (s = who) as -> by (cbn in Hs; congruence).
      assert (v' = v) as -> by congruence. assert (c' = c) as -> by congruence.
      destruct Heff as (Hlam & _ & _ & _ & Hpaid).
      rewrite Hlam, Hpaid; cycle 1.
      { apply load_counter_Some, Account_try_from_owner in Hload. rewrite Hload.
        apply programID_not_system. }
      rewrite credit_same, !(credit_other c who), (credit_other c v) by congruence.
      lia.
    + destruct (process_withdraw_spec _ _ _ _ Hd Hp)
        as (v'&c'&s&rest&bv&bc&pa'&Hacc&_&_&Hfv&Hfc&_&_&Heff&_).
      apply find_getVaultPDA in Hfv. apply find_getCounterPDA in Hfc.
      rewrite Hacc in Hs. assert (s = who) as -> by (cbn in Hs; congruence).
      assert (v' = v) as -> by congruence. assert (c' = c) as -> by congruence.
      destruct Heff as (Hlam & _). destruct (Hlam c) as [-> _].
      rewrite (credit_other c who), (credit_other c v) by congruence. lia.
  - f_equal. apply (execute_other l ix l' (Ok ()) who c Hun); [|done].
    intros s' Hs'. congruence.
Qed.

(** X14. The rent paid into a counter account stays there: once the counter
    exists, no sequence of instructions changes the balance of the counter
    account, neither a Deposit nor a Withdraw of its owner nor anything that
    others sign. The program has no instruction that closes a counter. *)
Theorem counter_rent_is_locked who v c l ixs :
  getVaultPDA who = Ok v →
  getCounterPDA who = Ok c →
  v ≠ c → c ≠ who →
  valid_ledger l →
  Forall (unaliased who c) ixs →
  is_Some (load_counter l c) →
  getBalance (execute_all l ixs) c = getBalance l c.
Proof.
  intros Hv Hc Hvc Hcw. revert l.
  induction ixs as [|ix ixs IH]; intros l Hl Hall Hsome; [done|].
  apply Forall_cons in Hall as [Hix Hall]. rewrite execute_all_cons.
  rewrite IH;
    [|by apply execute_valid|done|by apply (execute_counter_loaded l ix who c)].
  by apply (execute_counter_balance l ix who v c).
Qed.

Lemma process_writable ix l l' :
  process_instruction ix l = Ok l' →
  ∃ v c s rest,
    ix_accounts ix = v :: c :: s :: system_program_ID :: rest
    ∧ v ∈ ix_writable ix ∧ c ∈ ix_writable ix ∧ s ∈ ix_writable ix.
Proof.
  intros Hok. unfold process_instruction in Hok.
  destruct (ix_data ix) as [amount|amount].
  - split_if Hok as Hamount.
    apply bind_Ok in Hok as ([l1 ctx] & Hacc & Hok). clear Hok.
    unfold Deposit_try_accounts in Hacc.
    destruct (ix_accounts ix) as [|v [|c [|s [|sk rest]]]] eqn:Haccounts; try done.
    { by split_if Hacc as Hx. }
    split_if Hacc as Hsigner. split_if Hacc as Hsys.
    apply bind_Ok in Hacc as ([[l1' pa] bc] & Hinit & Hacc). cbn beta iota in Hacc.
    split_if Hacc as Hmutc.
    apply bind_Ok in Hacc as ([pda bv] & Hfind & Hacc). cbn beta iota in Hacc.
    split_if Hacc as Hseeds. split_if Hacc as Hmutv. split_if Hacc as Hmuts.
    unfold has_key in *. bool_hyps. subst sk.
    by exists v, c, s, rest.
  - split_if Hok as Hamount.
    apply bind_Ok in Hok as (ctx & Hacc & Hok). clear Hok.
    unfold Withdraw_try_accounts in Hacc.
    destruct (ix_accounts ix) as [|v [|c rest2]] eqn:Haccounts; try done.
    apply bind_Ok in Hacc as (pa & Hload & Hacc).
    destruct rest2 as [|s [|sk rest]]; try done.
    { by split_if Hacc as Hx. }
    split_if Hacc as Hsigner. split_if Hacc as Hsys.
    apply bind_Ok in Hacc as ([vpda bv] & Hfind & Hacc). cbn beta iota in Hacc.
    split_if Hacc as Hseedsv. split_if Hacc as Hmutv.
    apply bind_Ok in Hacc as ([cpda bc] & Hfindc & Hacc). cbn beta iota in Hacc.
    split_if Hacc as Hseedsc. split_if Hacc as Hmutc. split_if Hacc as Hmuts.
    unfold has_key in *. bool_hyps. subst sk.
    by exists v, c, s, rest.
Qed.

(** X15. Only a call put together as the client puts it together goes
    through. An instruction that succeeds names at least four accounts, in
    the order vault, counter, signer, system program; the third has signed;
    the first two are the addresses derived from the third under the seeds
    "vault" and "counter"; all three are writable; and the amount is a [u64].
    A Withdraw that succeeds has moreover found the counter in place and the
    amount in the vault. *)
Theorem only_well_formed_calls_succeed l ix l' :
  execute l ix = (l', Ok ()) →
  ∃ who v c rest,
    ix_accounts ix = v :: c :: who :: system_program_ID :: rest
    ∧ who ∈ ix_signers ix
    ∧ getVaultPDA who = Ok v
    ∧ getCounterPDA who = Ok c
    ∧ v ∈ ix_writable ix ∧ c ∈ ix_writable ix ∧ who ∈ ix_writable ix
    ∧ match ix_data ix with
      | IxDeposit amount => 0 ≤ amount ≤ U64_MAX
      | IxWithdraw amount =>
          0 ≤ amount ≤ U64_MAX
          ∧ is_Some (load_counter l c)
          ∧ amount ≤ getBalance l v
      end.
Proof.
  intros Hex. apply execute_Ok in Hex.
  destruct (process_writable _ _ _ Hex) as (v & c & s & rest & Hacc & Hwv & Hwc & Hws).
  exists s, v, c, rest.
  destruct (ix_data ix) as [amount|amount] eqn:Hd.
  - destruct (process_deposit_spec _ _ _ _ Hd Hex)
      as (v'&c'&s'&rest'&bv&bc&paid&Hacc'&Ham&Hs&Hfv&Hfc&_).
    rewrite Hacc in Hacc'. simplify_eq.
    apply find_getVaultPDA in Hfv. apply find_getCounterPDA in Hfc.
    split_and!; try done; lia.
  - destruct (process_withdraw_spec _ _ _ _ Hd Hex)
      as (v'&c'&s'&rest'&bv&bc&pa&Hacc'&Ham&Hs&Hfv&Hfc&_&Hload&_&Hfunds&_).
    rewrite Hacc in Hacc'. simplify_eq.
    apply find_getVaultPDA in Hfv. apply find_getCounterPDA in Hfc.
    apply load_counter_Some in Hload.
    split_and!; try done; try lia.
Qed.

(** X16. What keeps derived addresses apart is the hash and the hash alone,
    and the code feeds it inputs that never coincide. A derived address is
    the [sha256] digest of namespace, identity, bump, program id and marker,
    at the bump found, which lies in [1, 255]; the input of a vault address
    is never the input of a counter address, whatever the identities and
    bumps; and the inputs of two distinct identities differ under either
    namespace, whatever the bumps. So an identity's vault address and an
    identity's counter address coincide, or two distinct identities share a
    vault or a counter address, only if [sha256] sends two different inputs
    of that form to the same digest. *)
Theorem derived_addresses_hash_distinct_inputs who1 who2 :
  (∀ ns a b, findProgramAddressSync [ns; who1] programID = Ok (a, b) →
             1 ≤ b ≤ 255 ∧ a = sha256 (derivation_message ns who1 b))
  ∧ (∀ b1 b2, derivation_message (bytes_of_string "vault") who1 b1
              ≠ derivation_message (bytes_of_string "counter") who2 b2)
  ∧ (who1 ≠ who2 →
     ∀ ns b1 b2, derivation_message ns who1 b1 ≠ derivation_message ns who2 b2)
  ∧ (∀ a,
       (getVaultPDA who1 = Ok a ∧ getCounterPDA who2 = Ok a)
       ∨ (who1 ≠ who2 ∧ getVaultPDA who1 = Ok a ∧ getVaultPDA who2 = Ok a)
       ∨ (who1 ≠ who2 ∧ getCounterPDA who1 = Ok a ∧ getCounterPDA who2 = Ok a) →
       ∃ ns1 ns2 b1 b2,
         (1 ≤ b1 ≤ 255) ∧ (1 ≤ b2 ≤ 255)
         ∧ derivation_message ns1 who1 b1 ≠ derivation_message ns2 who2 b2
         ∧ sha256 (derivation_message ns1 who1 b1) = a
         ∧ sha256 (derivation_message ns2 who2 b2) = a).
Proof.
  assert (∀ ns who a b, findProgramAddressSync [ns; who] programID = Ok (a, b) →
                        1 ≤ b ≤ 255 ∧ a = sha256 (derivation_message ns who b)) as Hhash.
  { intros ns who a b Hf. split; [|by apply find_hash in Hf as [? _]].
    by apply find_derives in Hf as (Hb & _). }
  split_and!.
  - intros ns a b. apply Hhash.
  - apply derivation_message_namespace.
  - intros Hne ns b1 b2 Heq. by apply derivation_message_inj in Heq.
  - intros a [[H1 H2]|[(Hne & H1 & H2)|(Hne & H1 & H2)]].
    + apply getVaultPDA_Ok in H1 as [b1 [Hb1 ->]%Hhash].
      apply getCounterPDA_Ok in H2 as [b2 [Hb2 H2]%Hhash].
      exists (bytes_of_string "vault"), (bytes_of_string "counter"), b1, b2.
      split_and!;
        [lia | lia | lia | lia | apply derivation_message_namespace | done | congruence].
    + apply getVaultPDA_Ok in H1 as [b1 [Hb1 ->]%Hhash].
      apply getVaultPDA_Ok in H2 as [b2 [Hb2 H2]%Hhash].
      exists (bytes_of_string "vault"), (bytes_of_string "vault"), b1, b2.
      split_and!;
        [lia | lia | lia | lia | by intros ?%derivation_message_inj | done | congruence].
    + apply getCounterPDA_Ok in H1 as [b1 [Hb1 ->]%Hhash].
      apply getCounterPDA_Ok in H2 as [b2 [Hb2 H2]%Hhash].
      exists (bytes_of_string "counter"), (bytes_of_string "counter"), b1, b2.
      split_and!;
        [lia | lia | lia | lia | by intros ?%derivation_message_inj | done | congruence].
Qed.

End MoreProperties.


(** * The theorems at work on the small substrate *)

Ltac by_computation := apply (bool_decide_unpack _); vm_compute; exact I.

Ltac evaluate :=
  vm_compute;
  lazymatch goal with
  | |- ex _ => eexists; reflexivity
  | |- _ = _ => reflexivity
  | |- _ => let H := fresh in intros H; discriminate H
  end.

Ltac unaliased_by_computation :=
  let s := fresh "s" in
  let Hs := fresh "Hs" in
  let Hne := fresh "Hne" in
  intros s Hs Hne; vm_compute in Hs; injection Hs as <-;
  first [ by destruct Hne
        | split_and!; vm_compute; discriminate ].

(** The two components of a transaction's outcome, so that a concrete run
    is settled by evaluating its result alone. *)
Lemma execute_outcome `{Substrate} l ix r :
  (execute l ix).2 = r → execute l ix = ((execute l ix).1, r).
Proof. intros <-. by destruct (execute l ix). Qed.

Lemma execute_rejects `{Substrate} l ix e :
  (execute l ix).2 = Err e → execute l ix = (l, Err e).
Proof.
  intros Hr. rewrite (execute_outcome l ix _ Hr). f_equal.
  eapply execute_Err. by apply execute_outcome.
Qed.

Ltac outcome := unfold after_deposit; apply execute_outcome; evaluate.

Lemma genesis_valid : valid_ledger genesis.
Proof. by_computation. Qed.

Lemma after_deposit_valid : valid_ledger after_deposit.
Proof. by_computation. Qed.

Lemma alice_call_canonical d :
  canonical_call alice alice_vault alice_counter
    (vault_instruction alice alice_vault alice_counter d).
Proof. unfold canonical_call. cbn. split_and!; [done | set_solver..]. Qed.

Lemma deposit_all_or_nothing_witness :
  getBalance after_deposit alice_vault = getBalance genesis alice_vault + 1000000000
  ∧ @totalDeposits toy after_deposit alice_counter
    = @totalDeposits toy genesis alice_counter + 1.
Proof.
  apply (@deposit_all_or_nothing toy genesis alice_deposits 1000000000 alice
           alice_vault alice_counter after_deposit (Ok ())).
  - by_computation.
  - reflexivity.
  - reflexivity.
  - evaluate.
  - evaluate.
  - evaluate.
  - evaluate.
  - outcome.
Defined.

Lemma withdraw_success_effect_witness :
  let l' := (@execute toy after_deposit (alice_withdraws 400000000)).1 in
  is_Some (@load_counter toy after_deposit alice_counter)
  ∧ 400000000 ≤ getBalance after_deposit alice_vault
  ∧ getBalance l' alice_vault = getBalance after_deposit alice_vault - 400000000
  ∧ getBalance l' alice = getBalance after_deposit alice + 400000000
  ∧ @totalWithdrawals toy l' alice_counter
    = @totalWithdrawals toy after_deposit alice_counter + 1.
Proof.
  apply (@withdraw_success_effect toy after_deposit (alice_withdraws 400000000)
           400000000 alice alice_vault alice_counter).
  - by_computation.
  - reflexivity.
  - reflexivity.
  - evaluate.
  - evaluate.
  - evaluate.
  - outcome.
Defined.

Lemma withdraw_bounded_by_balance_witness :
  @execute toy after_deposit (alice_withdraws 1500000000)
  = (after_deposit, Err ResultWithNegativeLamports)
  ∧ ∃ l', @execute toy after_deposit (alice_withdraws 1000000000) = (l', Ok ())
          ∧ getBalance l' alice_vault = 0
          ∧ is_Some (l' !! alice_vault)
          ∧ owner (account_at l' alice_vault) = system_program_ID
          ∧ data (account_at l' alice_vault) = [].
Proof.
  split.
  - apply (@withdraw_bounded_by_balance toy after_deposit
             (alice_withdraws 1500000000) 1500000000 alice alice_vault alice_counter).
    + apply alice_call_canonical.
    + reflexivity.
    + reflexivity.
    + evaluate.
    + evaluate.
    + evaluate.
    + evaluate.
    + evaluate.
  - apply (@withdraw_bounded_by_balance toy after_deposit
             (alice_withdraws 1000000000) 1000000000 alice alice_vault alice_counter).
    + apply alice_call_canonical.
    + reflexivity.
    + reflexivity.
    + evaluate.
    + evaluate.
    + evaluate.
    + evaluate.
    + evaluate.
    + evaluate.
    + evaluate.
    + evaluate.
    + evaluate.
Defined.

Lemma withdraw_before_deposit_witness :
  ∃ e, @execute toy genesis (alice_withdraws 1) = (genesis, Err e)
       ∧ (in_u64 1 = true → ix_accounts (alice_withdraws 1) !! 1%nat = Some alice_counter →
          e = (if lamports (account_at genesis alice_counter) =? 0
               then AccountNotInitialized else AccountOwnedByWrongProgram)
          ∧ classify e = CounterNotFound).
Proof.
  apply (@withdraw_before_deposit toy genesis (alice_withdraws 1) 1 alice alice_counter).
  - reflexivity.
  - reflexivity.
  - evaluate.
  - evaluate.
Defined.

Lemma address_mismatch_rejected_witness :
  @execute toy after_deposit alice_names_bob_vault = (after_deposit, Err ConstraintSeeds)
  ∧ @execute toy after_deposit alice_names_bob_counter
    = (after_deposit, Err AccountNotInitialized).
Proof.
  split.
  - destruct (@address_mismatch_rejected toy after_deposit alice_names_bob_vault alice
                alice_vault alice_counter bob_vault alice_counter [system_program_ID])
      as (_ & Hseeds & _).
    + evaluate.
    + evaluate.
    + reflexivity.
    + destruct (Hseeds 1 []) as [Hw _].
      * left. evaluate.
      * reflexivity.
      * by_computation.
      * by_computation.
      * by_computation.
      * by_computation.
      * reflexivity.
      * evaluate.
      * apply Hw. reflexivity.
  - destruct (@address_mismatch_rejected toy after_deposit alice_names_bob_counter alice
                alice_vault alice_counter alice_vault bob_counter [system_program_ID])
      as (_ & _ & _ & Hnone & _).
    + evaluate.
    + evaluate.
    + reflexivity.
    + apply (Hnone 1).
      * reflexivity.
      * reflexivity.
      * evaluate.
      * evaluate.
Defined.

(** C5, as stated, fails: a Withdraw of an owner who has deposited, naming
    as counter an address other than the derived one at which there is no
    account, is rejected by the account loader with [AccountNotInitialized]
    (CounterNotFound), not with [ConstraintSeeds] (AddressMismatch). *)
Lemma address_mismatch_counterexample :
  @getCounterPDA toy alice = Ok alice_counter
  ∧ ix_accounts alice_names_bob_counter !! 1%nat ≠ Some alice_counter
  ∧ canonical_call alice alice_vault bob_counter alice_names_bob_counter
  ∧ @execute toy after_deposit alice_names_bob_counter
    = (after_deposit, Err AccountNotInitialized)
  ∧ classify AccountNotInitialized ≠ AddressMismatch.
Proof.
  split_and!.
  - evaluate.
  - evaluate.
  - unfold canonical_call. cbn. split_and!; [done | set_solver..].
  - apply execute_rejects. evaluate.
  - discriminate.
Qed.

Lemma derivation_deterministic_witness :
  @try_find_program_address toy [bytes_of_string "vault"; alice] programID
  = Some (alice_vault, 255)
  ∧ @getVaultPDA toy alice = Ok alice_vault.
Proof.
  destruct (@derivation_deterministic toy alice) as (Hv & _ & _ & Hagree).
  split.
  - rewrite Hagree. evaluate.
  - apply Hv. exists 255. apply find_derives. evaluate.
Defined.

Lemma vault_balance_evolution_witness :
  getBalance (@execute toy after_deposit bob_deposits).1 alice_vault
  = getBalance after_deposit alice_vault
  ∧ 0 ≤ getBalance
          (@execute_all toy genesis
             [alice_deposits; bob_deposits; alice_withdraws 1000000000;
              alice_withdraws 1])
          alice_vault.
Proof.
  destruct (@vault_balance_evolution toy alice alice_vault alice_counter)
    as [Hstep Hseq].
  - evaluate.
  - evaluate.
  - evaluate.
  - evaluate.
  - split; [|exact (Hseq genesis _ genesis_valid)].
    destruct (Hstep after_deposit bob_deposits
                (@execute toy after_deposit bob_deposits).1
                (@execute toy after_deposit bob_deposits).2)
      as [Hsame|[(a & _ & Hs & _)|(a & _ & Hs & _)]].
    + apply after_deposit_valid.
    + unaliased_by_computation.
    + by destruct (@execute toy after_deposit bob_deposits).
    + exact Hsame.
    + vm_compute in Hs. discriminate.
    + vm_compute in Hs. discriminate.
Defined.

Lemma counters_count_calls_witness :
  @totalDeposits toy genesis alice_counter
  ≤ @totalDeposits toy
      (@execute_all toy genesis
         [alice_deposits; bob_deposits; alice_withdraws 400000000]) alice_counter
  ∧ @totalDeposits toy after_deposit alice_counter = 1
  ∧ @totalWithdrawals toy after_deposit alice_counter = 0.
Proof.
  destruct (@counters_count_calls toy alice alice_counter)
    as (_ & _ & Hstep & Hseq).
  - evaluate.
  - split.
    + refine (proj1 (Hseq genesis
        [alice_deposits; bob_deposits; alice_withdraws 400000000] genesis_valid _)).
      repeat (apply Forall_cons; split; [unaliased_by_computation|]).
      apply Forall_nil_2.
    + assert (@execute toy genesis alice_deposits = (after_deposit, Ok ())) as Hex
        by outcome.
      pose proof (Hstep genesis alice_deposits after_deposit genesis_valid
                    eq_refl Hex) as Hfirst.
      cbn [ix_data alice_deposits vault_instruction] in Hfirst.
      destruct Hfirst as (_ & _ & Hzero). apply Hzero. evaluate.
Defined.

Lemma frame_properties_witness :
  getBalance after_deposit bob_vault = getBalance genesis bob_vault
  ∧ @load_counter toy after_deposit bob_counter = @load_counter toy genesis bob_counter
  ∧ @totalDeposits toy after_deposit bob_counter = @totalDeposits toy genesis bob_counter
  ∧ @totalWithdrawals toy after_deposit bob_counter
    = @totalWithdrawals toy genesis bob_counter.
Proof.
  destruct (@frame_properties toy alice alice_vault alice_counter) as [_ Hframe].
  - evaluate.
  - evaluate.
  - apply (Hframe genesis alice_deposits after_deposit (Ok ()) bob bob_vault bob_counter).
    + reflexivity.
    + evaluate.
    + evaluate.
    + evaluate.
    + evaluate.
    + evaluate.
    + evaluate.
    + evaluate.
    + evaluate.
    + outcome.
Defined.

(** ** More runs on the small substrate *)

Lemma bob_call_canonical d :
  canonical_call bob bob_vault bob_counter
    (vault_instruction bob bob_vault bob_counter d).
Proof. unfold canonical_call. cbn. split_and!; [done | set_solver..]. Qed.

Lemma alice_addresses :
  @getVaultPDA toy alice = Ok alice_vault ∧ @getCounterPDA toy alice = Ok alice_counter.
Proof. split; evaluate. Qed.

Lemma bob_addresses :
  @getVaultPDA toy bob = Ok bob_vault ∧ @getCounterPDA toy bob = Ok bob_counter.
Proof. split; evaluate. Qed.

(** The first owner's deposit, run once: its outcome and the three accounts
    it leaves behind. *)
Lemma alice_deposit_runs : @execute toy genesis alice_deposits = (after_deposit, Ok ()).
Proof. outcome. Qed.

Lemma after_deposit_accounts :
  account_at after_deposit alice
  = {| lamports := 5000000000 - @minimum_balance toy COUNTER_SPACE - 1000000000;
       data := []; owner := system_program_ID |}
  ∧ account_at after_deposit alice_vault
    = {| lamports := 1000000000; data := []; owner := system_program_ID |}
  ∧ account_at after_deposit alice_counter
    = {| lamports := @minimum_balance toy COUNTER_SPACE;
         data := @try_serialize toy {| total_deposits := 1; total_withdrawals := 0 |};
         owner := programID |}.
Proof. split_and!; evaluate. Qed.

Ltac at_after_deposit :=
  unfold getBalance, totalDeposits, totalWithdrawals, load_counter;
  rewrite ?(proj1 after_deposit_accounts), ?(proj1 (proj2 after_deposit_accounts)),
    ?(proj2 (proj2 after_deposit_accounts));
  evaluate.

Ltac unaliased_with_bob :=
  let s := fresh "s" in
  let Hs := fresh "Hs" in
  let Hne := fresh "Hne" in
  intros s Hs Hne;
  first [ exfalso; apply Hne; vm_compute in Hs; injection Hs as <-; reflexivity
        | assert (s = bob) as ->
            by (vm_compute in Hs; injection Hs as <-; reflexivity);
          rewrite (proj1 bob_addresses), (proj2 bob_addresses);
          split_and!; evaluate ].

Ltac signer_is who :=
  let s := fresh "s" in
  let Hs := fresh "Hs" in
  intros s Hs;
  assert (s = who) as -> by (vm_compute in Hs; injection Hs as <-; reflexivity).

Ltac settle :=
  first [ exact (proj1 alice_addresses) | exact (proj2 alice_addresses)
        | exact (proj1 bob_addresses) | exact (proj2 bob_addresses)
        | at_after_deposit ].

Lemma counter_record_roundtrip_witness :
  let ui := {| total_deposits := 3; total_withdrawals := 2 |} in
  Z.of_nat (length (@try_serialize toy ui)) = COUNTER_SPACE
  ∧ @try_deserialize toy (@try_serialize toy ui ++ [7; 7]) = Ok ui
  ∧ ∀ ui', @try_deserialize toy (@try_serialize toy ui) = Ok ui' →
           @try_serialize toy ui' = @try_serialize toy ui ∧ u64_fields ui'.
Proof.
  intros ui.
  destruct (@counter_record_roundtrip toy ui [7; 7] (@try_serialize toy ui))
    as (Hlen & _ & Hback & Himage).
  - split; split; evaluate.
  - by_computation.
  - reflexivity.
  - by split_and!.
Defined.

Lemma derived_address_off_curve_witness :
  @is_on_curve toy alice_vault = false
  ∧ @is_on_curve toy alice_counter = false
  ∧ @getVaultPDA toy alice ≠ Ok alice
  ∧ @getCounterPDA toy alice ≠ Ok alice.
Proof.
  destruct (@derived_address_off_curve toy alice) as (Hv & Hc & _ & Hne).
  destruct Hne as [Hnv Hnc]; [reflexivity|].
  destruct (Hv alice_vault (proj1 alice_addresses)) as [Hov _].
  destruct (Hc alice_counter (proj2 alice_addresses)) as [Hoc _].
  exact (conj Hov (conj Hoc (conj Hnv Hnc))).
Defined.

Lemma derivation_fails_only_without_bump_witness :
  @getVaultPDA toy alice ≠ Err TypeError_MaxSeedLengthExceeded
  ∧ ¬ (∀ b, 1 ≤ b ≤ 255 →
         @is_on_curve toy
           (@sha256 toy (derivation_message (bytes_of_string "vault") alice b)) = true).
Proof.
  destruct (@derivation_fails_only_without_bump toy alice eq_refl)
    as (Hiff & _ & Htype & _).
  split; [exact Htype|]. intros Hall. apply Hiff in Hall.
  rewrite (proj1 alice_addresses) in Hall. discriminate Hall.
Defined.

Lemma only_signed_debits_witness :
  ∃ s, ix_accounts alice_deposits !! 2%nat = Some s
       ∧ s ∈ ix_signers alice_deposits
       ∧ alice = s.
Proof.
  apply (@only_signed_debits toy genesis alice_deposits after_deposit (Ok ()) alice).
  - exact alice_deposit_runs.
  - at_after_deposit.
Defined.

Lemma ledger_stays_well_formed_witness :
  valid_ledger (@execute_all toy genesis [alice_deposits; bob_deposits])
  ∧ (0 ≤ getBalance (@execute_all toy genesis [alice_deposits; bob_deposits])
           alice_vault ≤ U64_MAX)
  ∧ Forall is_byte
      (data (account_at (@execute_all toy genesis [alice_deposits; bob_deposits])
               alice_vault)).
Proof.
  apply (@ledger_stays_well_formed toy genesis [alice_deposits; bob_deposits]
           alice_vault).
  apply genesis_valid.
Defined.

Lemma counter_exists_for_good_witness :
  is_Some (@load_counter toy
             (@execute_all toy after_deposit
                [bob_deposits; alice_withdraws 400000000]) alice_counter).
Proof.
  apply (@counter_exists_for_good toy alice alice_counter after_deposit
           [bob_deposits; alice_withdraws 400000000]).
  - exact (proj2 alice_addresses).
  - apply after_deposit_valid.
  - repeat (apply Forall_cons; split; [unaliased_with_bob|]).
    apply Forall_nil_2.
  - at_after_deposit.
Defined.

Lemma unsigned_call_rejected_witness :
  let ix := {| ix_accounts := [alice_vault; alice_counter; alice; system_program_ID];
               ix_signers := [bob];
               ix_writable := [alice_vault; alice_counter; alice];
               ix_data := IxWithdraw 1 |} in
  @execute toy after_deposit ix = (after_deposit, Err AccountNotSigner).
Proof.
  intros ix.
  destruct (@unsigned_call_rejected toy after_deposit ix alice_vault alice_counter
              alice [system_program_ID] 1) as (_ & Hw & _).
  - reflexivity.
  - by_computation.
  - reflexivity.
  - apply Hw; [reflexivity | at_after_deposit].
Defined.

Lemma deposit_into_existing_counter_witness :
  @execute toy after_deposit
    (vault_instruction alice alice_vault alice_counter (IxDeposit 5000000000))
  = (after_deposit, Err ResultWithNegativeLamports)
  ∧ ∃ l', @execute toy after_deposit alice_deposits = (l', Ok ())
          ∧ getBalance l' alice = getBalance after_deposit alice - 1000000000
          ∧ getBalance l' alice_vault = getBalance after_deposit alice_vault + 1000000000
          ∧ @totalDeposits toy l' alice_counter
            = @totalDeposits toy after_deposit alice_counter + 1
          ∧ @totalWithdrawals toy l' alice_counter
            = @totalWithdrawals toy after_deposit alice_counter.
Proof.
  split.
  - apply (@deposit_into_existing_counter toy after_deposit
             (vault_instruction alice alice_vault alice_counter (IxDeposit 5000000000))
             5000000000 alice alice_vault alice_counter).
    + apply alice_call_canonical.
    + reflexivity.
    + reflexivity.
    + settle.
    + settle.
    + apply after_deposit_valid.
    + settle.
    + settle.
    + settle.
    + settle.
    + settle.
    + settle.
    + settle.
  - apply (@deposit_into_existing_counter toy after_deposit alice_deposits
             1000000000 alice alice_vault alice_counter).
    + apply alice_call_canonical.
    + reflexivity.
    + reflexivity.
    + settle.
    + settle.
    + apply after_deposit_valid.
    + settle.
    + settle.
    + settle.
    + settle.
    + settle.
    + settle.
    + settle.
    + settle.
    + settle.
Defined.

Lemma first_deposit_creates_counter_witness :
  @execute toy genesis
    (vault_instruction bob bob_vault bob_counter (IxDeposit 2000000000))
  = (genesis, Err ResultWithNegativeLamports)
  ∧ ∃ l', @execute toy genesis alice_deposits = (l', Ok ())
          ∧ getBalance l' alice
            = getBalance genesis alice - @minimum_balance toy COUNTER_SPACE - 1000000000
          ∧ getBalance l' alice_vault = getBalance genesis alice_vault + 1000000000
          ∧ getBalance l' alice_counter = @minimum_balance toy COUNTER_SPACE
          ∧ @load_counter toy l' alice_counter
            = Some {| total_deposits := 1; total_withdrawals := 0 |}
          ∧ ∀ k, k ≠ alice → k ≠ alice_vault → k ≠ alice_counter →
                 account_at l' k = account_at genesis k.
Proof.
  split.
  - apply (@first_deposit_creates_counter toy genesis
             (vault_instruction bob bob_vault bob_counter (IxDeposit 2000000000))
             2000000000 bob bob_vault bob_counter).
    + apply bob_call_canonical.
    + reflexivity.
    + reflexivity.
    + settle.
    + settle.
    + settle.
    + settle.
    + settle.
    + settle.
    + settle.
    + settle.
    + settle.
  - apply (@first_deposit_creates_counter toy genesis alice_deposits
             1000000000 alice alice_vault alice_counter).
    + apply alice_call_canonical.
    + reflexivity.
    + reflexivity.
    + settle.
    + settle.
    + settle.
    + settle.
    + settle.
    + settle.
    + settle.
    + settle.
    + settle.
    + settle.
Defined.

Lemma withdraw_within_balance_succeeds_witness :
  ∃ l', @execute toy after_deposit (alice_withdraws 400000000) = (l', Ok ())
        ∧ getBalance l' alice_vault = getBalance after_deposit alice_vault - 400000000
        ∧ getBalance l' alice = getBalance after_deposit alice + 400000000
        ∧ getBalance l' alice_counter = getBalance after_deposit alice_counter
        ∧ @totalWithdrawals toy l' alice_counter
          = @totalWithdrawals toy after_deposit alice_counter + 1
        ∧ @totalDeposits toy l' alice_counter
          = @totalDeposits toy after_deposit alice_counter
        ∧ data (account_at l' alice_vault) = []
        ∧ owner (account_at l' alice_vault) = system_program_ID
        ∧ ∀ k, k ≠ alice → k ≠ alice_vault → k ≠ alice_counter →
               account_at l' k = account_at after_deposit k.
Proof.
  apply (@withdraw_within_balance_succeeds toy after_deposit
           (alice_withdraws 400000000) 400000000 alice alice_vault alice_counter).
  - apply alice_call_canonical.
  - reflexivity.
  - reflexivity.
  - settle.
  - settle.
  - apply after_deposit_valid.
  - settle.
  - settle.
  - settle.
  - settle.
  - settle.
  - settle.
  - settle.
  - settle.
Defined.

Lemma deposit_then_withdraw_restores_witness :
  ∃ l1 l2, @execute toy after_deposit alice_deposits = (l1, Ok ())
           ∧ @execute toy l1 (alice_withdraws 1000000000) = (l2, Ok ())
           ∧ @execute_all toy after_deposit
               [alice_deposits; alice_withdraws 1000000000] = l2
           ∧ @totalDeposits toy l2 alice_counter
             = @totalDeposits toy after_deposit alice_counter + 1
           ∧ @totalWithdrawals toy l2 alice_counter
             = @totalWithdrawals toy after_deposit alice_counter + 1
           ∧ ∀ k, k ≠ alice_counter → account_at l2 k = account_at after_deposit k.
Proof.
  apply (@deposit_then_withdraw_restores toy after_deposit alice_deposits
           (alice_withdraws 1000000000) 1000000000 alice alice_vault alice_counter).
  - apply alice_call_canonical.
  - apply alice_call_canonical.
  - reflexivity.
  - reflexivity.
  - reflexivity.
  - settle.
  - settle.
  - apply after_deposit_valid.
  - settle.
  - settle.
  - settle.
  - settle.
  - settle.
  - settle.
  - settle.
  - settle.
  - settle.
  - settle.
  - settle.
  - settle.
Defined.

Lemma lamports_are_conserved_witness :
  let ks := [alice; alice_vault; alice_counter; bob; bob_vault; bob_counter] in
  supply (@execute_all toy genesis
            [alice_deposits; bob_deposits; alice_withdraws 400000000]) ks
  = supply genesis ks.
Proof.
  intros ks.
  apply (@lamports_are_conserved toy genesis
           [alice_deposits; bob_deposits; alice_withdraws 400000000] ks).
  - by_computation.
  - repeat (apply Forall_cons; split;
            [intros s v c Hs Hv Hc;
             first [ assert (s = alice) as ->
                       by (vm_compute in Hs; injection Hs as <-; reflexivity);
                     rewrite (proj1 alice_addresses) in Hv;
                     rewrite (proj2 alice_addresses) in Hc
                   | assert (s = bob) as ->
                       by (vm_compute in Hs; injection Hs as <-; reflexivity);
                     rewrite (proj1 bob_addresses) in Hv;
                     rewrite (proj2 bob_addresses) in Hc ];
             injection Hv as <-; injection Hc as <-;
             split_and!; by_computation|]).
    apply Forall_nil_2.
Defined.

Lemma only_the_counter_is_written_witness :
  owner (account_at after_deposit alice_vault) = owner (account_at genesis alice_vault)
  ∧ data (account_at after_deposit alice_vault) = data (account_at genesis alice_vault).
Proof.
  apply (@only_the_counter_is_written toy genesis alice_deposits after_deposit (Ok ())
           alice_vault).
  - exact alice_deposit_runs.
  - signer_is alice. rewrite (proj2 alice_addresses). evaluate.
Defined.

Lemma counter_rent_is_locked_witness :
  getBalance (@execute_all toy after_deposit
                [bob_deposits; alice_withdraws 400000000; alice_deposits])
    alice_counter
  = getBalance after_deposit alice_counter.
Proof.
  apply (@counter_rent_is_locked toy alice alice_vault alice_counter after_deposit
           [bob_deposits; alice_withdraws 400000000; alice_deposits]).
  - exact (proj1 alice_addresses).
  - exact (proj2 alice_addresses).
  - evaluate.
  - evaluate.
  - apply after_deposit_valid.
  - repeat (apply Forall_cons; split; [unaliased_with_bob|]).
    apply Forall_nil_2.
  - at_after_deposit.
Defined.

Lemma only_well_formed_calls_succeed_witness :
  ∃ who v c rest,
    ix_accounts alice_deposits = v :: c :: who :: system_program_ID :: rest
    ∧ who ∈ ix_signers alice_deposits
    ∧ @getVaultPDA toy who = Ok v
    ∧ @getCounterPDA toy who = Ok c
    ∧ v ∈ ix_writable alice_deposits ∧ c ∈ ix_writable alice_deposits
    ∧ who ∈ ix_writable alice_deposits
    ∧ 0 ≤ 1000000000 ≤ U64_MAX.
Proof.
  apply (@only_well_formed_calls_succeed toy genesis alice_deposits after_deposit).
  exact alice_deposit_runs.
Defined.

Lemma derived_addresses_hash_distinct_inputs_witness :
  alice_vault = @sha256 toy (derivation_message (bytes_of_string "vault") alice 255)
  ∧ derivation_message (bytes_of_string "vault") alice 255
    ≠ derivation_message (bytes_of_string "counter") alice 255
  ∧ derivation_message (bytes_of_string "vault") alice 255
    ≠ derivation_message (bytes_of_string "vault") bob 255.
Proof.
  destruct (@derived_addresses_hash_distinct_inputs toy alice bob)
    as (Hhash & Hns & Hid & _).
  destruct (@derived_addresses_hash_distinct_inputs toy alice alice)
    as (_ & Hown & _).
  split_and!.
  - apply (Hhash (bytes_of_string "vault") alice_vault 255). evaluate.
  - apply Hown.
  - apply Hid. evaluate.
Defined.
